(** * ModelManager: the procedural test-geometry generators

    A shallow embedding of [src/ModelManager.ts].  The class builds vertex
    buffers (six numbers per vertex: x, y, z, r, g, b) for a triangle strip, a
    triangle fan, an indexed grid mesh and a flattened grid mesh, and hands
    them to the rasterizer ([GeometricProcessor]).

    Conventions of the embedding:
    - a JavaScript [number] that holds a coordinate or a colour channel is an
      IEEE-754 binary64 value, i.e. Rocq's primitive [float]; [+], [-], [*]
      and [/] are the kernel's binary64 operations, which are the ones
      ECMAScript prescribes;
    - a JavaScript [number] that is a loop counter, a vertex index or a count
      is a [nat]: the source only ever adds and multiplies small non-negative
      integers there, which binary64 does exactly;
    - [Math.cos] and [Math.sin] are implementation-approximated in
      ECMAScript, so the generators take them as parameters;
    - bounds on computed coordinates are stated with the comparisons of
      binary64 and proved from the specification of its operations
      ([SpecFloat]), with the range of [Math.cos] and [Math.sin] as a
      hypothesis;
    - [number[]] is a [list]; [push] appends at the end;
    - the collaborators that are not part of this file ([Color.interpolate2d],
      [FrameBuffer], [GeometricProcessor]) are parameters of the section. *)

From Stdlib Require Import List Arith ZArith Lia Bool String Permutation.
From Stdlib Require Import PrimFloat Uint63 FloatOps FloatAxioms SpecFloat.
Import ListNotations.

Set Implicit Arguments.

(** ** JavaScript numbers and arrays *)

Module JS.

Open Scope float_scope.

(** The binary64 value of a small non-negative integer (a loop counter used
    in floating-point arithmetic). *)
Definition of_nat (n : nat) : float :=
  PrimFloat.of_uint63 (Uint63.of_Z (Z.of_nat n)).

(** [Math.PI]: the binary64 value closest to pi. *)
Definition PI : float := 0x1.921fb54442d18p+1.

Definition two52 : float := 0x1p52.

(** [Math.floor].  Below 2^52 in magnitude, adding and subtracting 2^52
    rounds to the nearest integer, which is then lowered by one when it
    overshoots; every other value (large, infinite, NaN) and both zeros are
    returned unchanged. *)
Definition floor (x : float) : float :=
  if (x =? 0) || negb (abs x <? two52) then x
  else
    let r := if 0 <? x then (x + two52) - two52 else (x - two52) + two52 in
    if x <? r then r - 1 else r.

(** [a.push(v)] *)
Definition push {A : Type} (a : list A) (v : A) : list A := a ++ [v].

(** [a[k]]; [None] stands for [undefined] (a read past the end). *)
Definition get {A : Type} (a : list A) (k : nat) : option A := nth_error a k.

(** [for (let i = 0; i < n; i++) body], threading the loop's state. *)
Definition for_range {S : Type} (n : nat) (body : nat -> S -> S) (init : S) : S :=
  fold_left (fun st i => body i st) (seq 0 n) init.

(** A [Map<string, V>]: keys in insertion order; [set] on a key that is
    present replaces its value in place. *)
Definition Map (V : Type) : Type := list (string * V).

Fixpoint map_set {V : Type} (m : Map V) (k : string) (v : V) : Map V :=
  match m with
  | [] => [(k, v)]
  | (k', v') :: m' =>
      if String.eqb k' k then (k', v) :: m' else (k', v') :: map_set m' k v
  end.

Definition map_keys {V : Type} (m : Map V) : list string := map fst m.

End JS.

Import JS.
Open Scope float_scope.

(** ** Colours *)

Module Color.

(** Modelled from the spec: the [Color] class ([src/Color.ts] is not among the
    sources).  The spec describes it as an RGB triple constructed from three
    channels, read back through [r], [g] and [b]. *)
Record t : Type := mk { r : float; g : float; b : float }.

(** Modelled from the spec: [Color.interpolate2d], the bilinear blend of four
    corner colours at [(s, t)], every channel truncated to an integer.  The
    generators below take the interpolation as a parameter; this one serves
    to run them. *)
Definition blend (c00 c10 c01 c11 s t : float) : float :=
  floor ((1 - s) * (1 - t) * c00 + s * (1 - t) * c10 + (1 - s) * t * c01 + s * t * c11).

Definition bilinear (c00 c10 c01 c11 : t) (s t : float) : Color.t :=
  mk (blend (r c00) (r c10) (r c01) (r c11) s t)
     (blend (g c00) (g c10) (g c01) (g c11) s t)
     (blend (b c00) (b c10) (b c01) (b c11) s t).

End Color.

(** ** Vertex buffers *)

(** Number of six-number vertex records in a buffer. *)
Definition vertexCount {A : Type} (buf : list A) : nat := (List.length buf / 6)%nat.

(** The [k]-th six-number record of a buffer. *)
Definition vertexAt {A : Type} (buf : list A) (k : nat) : list A :=
  firstn 6 (skipn (6 * k) buf).

(** The position (x, y, z) of a vertex record. *)
Definition position {A : Type} (v : list A) : list A := firstn 3 v.

(** The x and the y coordinate of a vertex record ([v[0]] and [v[1]]); a
    record too short to have them reads as NaN here, which no generator
    produces. *)
Definition vertexX (v : list float) : float := nth 0 v nan.
Definition vertexY (v : list float) : float := nth 1 v nan.

(** [lo <= v && v <= hi] with the comparisons of binary64, which are false
    as soon as an operand is NaN. *)
Definition between (lo v hi : float) : bool := (lo <=? v) && (v <=? hi).

(** The vertex lies in the square of half-side [r] around the centre
    [(width / 2, height / 2)] of the frame, on both axes.  The bounds are
    computed as the program computes the centre, in binary64. *)
Definition inBox (width height r : float) (v : list float) : bool :=
  between (width / 2 - r) (vertexX v) (width / 2 + r) &&
  between (height / 2 - r) (vertexY v) (height / 2 + r).

(** The Euclidean distance of a vertex from [(cx, cy)], computed in binary64
    ([Math.sqrt] is correctly rounded in ECMAScript). *)
Definition distance (cx cy : float) (v : list float) : float :=
  let dx := vertexX v - cx in
  let dy := vertexY v - cy in
  PrimFloat.sqrt (dx * dx + dy * dy).

(** The vertex records of the [k]-th triangle of a flat triangle list: three
    consecutive records. *)
Definition flatTriangle {A : Type} (vertices : list A) (k : nat) : list (list A) :=
  [vertexAt vertices (3 * k); vertexAt vertices (3 * k + 1); vertexAt vertices (3 * k + 2)].

(** The vertex records of the [k]-th triangle of an indexed mesh: the records
    that its three consecutive indices refer to. *)
Definition indexedTriangle {A : Type} (vertices : list A) (indices : list nat) (k : nat)
  : list (list A) :=
  map (vertexAt vertices) (firstn 3 (skipn (3 * k) indices)).

(** ** Binary64 values as integers *)

(** To reason about the rounding of [+], [-] and [*] the values of binary64
    numbers are read as integers: a finite number [m * 2^e] is the integer
    [m * 2^(e - L)] in units of [2^L], for any [L] at or below the smallest
    exponent in use.  Rounding to nearest, ties to even, then is a function on
    integers, and it is monotone. *)

Section Binary64Values.

Local Open Scope Z_scope.

(** The number of binary digits of a mantissa. *)
Definition digits (m : positive) : Z := Zpos (digits2_pos m).

(** Round to nearest, ties to even: the quotient [q] of a division by [pow]
    is kept or raised by one, by comparing twice the remainder with [pow]. *)
Definition rne (q rem2 pow : Z) : Z :=
  match rem2 ?= pow with
  | Lt => q
  | Eq => if Z.even q then q else q + 1
  | Gt => q + 1
  end.

(** The number with sign [s], rounded mantissa [m2] and exponent [E]: a
    mantissa that rounding carried to [2^53] is renormalised, an exponent
    above 971 overflows to infinity. *)
Definition assemble (s : bool) (m2 E : Z) : spec_float :=
  if m2 =? 0 then S754_zero s
  else if m2 =? 2 ^ 53 then
    (if E + 1 <=? 971 then S754_finite s (Z.to_pos (2 ^ 52)) (E + 1) else S754_infinity s)
  else if E <=? 971 then S754_finite s (Z.to_pos m2) E else S754_infinity s.

(** In units of [2^L], the infinities stand at the first power of two that is
    out of range. *)
Definition Omega (L : Z) : Z := 2 ^ (1024 - L).

(** The value of a number in units of [2^L]. *)
Definition fval (L : Z) (f : spec_float) : Z :=
  match f with
  | S754_zero _ => 0
  | S754_nan => 0
  | S754_infinity s => if s then - Omega L else Omega L
  | S754_finite s m e => if s then - (Zpos m * 2 ^ (e - L)) else Zpos m * 2 ^ (e - L)
  end.

(** How many low bits of the integer [p] (in units of [2^L]) do not fit in
    a binary64 number: all but the leading 53, and at least those below the
    smallest exponent. *)
Definition shift_of (L : Z) (p : positive) : Z := Z.max (digits p - 53) (-1074 - L).

(** Rounding of a positive integer to a multiple of [2^shift_of]. *)
Definition round_pos (L : Z) (p : positive) : Z :=
  let k := shift_of L p in
  rne (Zpos p / 2 ^ k) (2 * (Zpos p mod 2 ^ k)) (2 ^ k) * 2 ^ k.

(** Rounding of an integer in units of [2^L], with overflow to infinity. *)
Definition round_Z (L : Z) (N : Z) : Z :=
  match N with
  | Z0 => 0
  | Zpos p => Z.min (round_pos L p) (Omega L)
  | Zneg p => - Z.min (round_pos L p) (Omega L)
  end.

Definition sgn (s : bool) (v : Z) : Z := if s then - v else v.

Definition is_nan_sf (f : spec_float) : bool :=
  match f with S754_nan => true | _ => false end.

Definition is_finite_sf (f : spec_float) : bool :=
  match f with S754_zero _ | S754_finite _ _ _ => true | _ => false end.

End Binary64Values.

Abbreviation valid64 f := (SpecFloat.valid_binary prec emax f).

(** ** The rasterizer's interface *)

(** One invocation of a fill operation of [GeometricProcessor], with the
    buffers it was given.  The flattened mesh is copied slot by slot out of a
    scratch array, so its buffer holds the results of array reads. *)
Inductive FillCall : Type :=
| FillTriangleStrip (vertices : list float) (drawBorder : bool) (borderColor : Color.t)
| FillTriangleFan (vertices : list float) (drawBorder : bool) (borderColor : Color.t)
| FillTrianglesIndex (vertices : list float) (indices : list nat) (numTriangles : nat)
    (drawBorder : bool) (borderColor : Color.t)
| FillTriangles (vertices : list (option float)) (numTriangles : nat)
    (drawBorder : bool) (borderColor : Color.t).

(** ** Stand-ins for the collaborators, to run the generators *)

Module Reference.

(** Truncated power series: a deterministic stand-in for the engine's
    [Math.cos] and [Math.sin].  As ECMAScript requires, the cosine of [+0] is
    [1] and the sine of [+0] is [+0]. *)
Definition cos (x : float) : float :=
  let q := x * x in
  1 - q / 2 * (1 - q / 12 * (1 - q / 30 * (1 - q / 56 * (1 - q / 90 * (1 - q / 132))))).

Definition sin (x : float) : float :=
  let q := x * x in
  x * (1 - q / 6 * (1 - q / 20 * (1 - q / 42 * (1 - q / 72 * (1 - q / 110 * (1 - q / 156)))))).

(** A surface that only remembers its size and how many fills it received. *)
Record Frame : Type := mkFrame { frameWidth : float; frameHeight : float; filled : nat }.

Definition fill (f : Frame) : Frame :=
  mkFrame (frameWidth f) (frameHeight f) (S (filled f)).

Definition fillTriangleStrip (_ : list float) (f : Frame) (_ : bool) (_ : Color.t) := fill f.
Definition fillTriangleFan (_ : list float) (f : Frame) (_ : bool) (_ : Color.t) := fill f.
Definition fillTrianglesIndex (_ : list float) (_ : list nat) (_ : nat)
  (f : Frame) (_ : bool) (_ : Color.t) := fill f.
Definition fillTriangles (_ : list (option float)) (_ : nat)
  (f : Frame) (_ : bool) (_ : Color.t) := fill f.

End Reference.

(** ** The model manager *)

Section ModelManager.

(** [Math.cos] and [Math.sin] of the engine. *)
Variables cos sin : float -> float.

(** [Color.interpolate2d(c0, c1, c2, c3, s, t)]. *)
Variable interpolate2d : Color.t -> Color.t -> Color.t -> Color.t -> float -> float -> Color.t.

(** [FrameBuffer] with its two read-only dimensions, and the four fill
    operations of [GeometricProcessor] as transformers of the surface. *)
Variable FrameBuffer : Type.
Variables width height : FrameBuffer -> float.
Variable fillTriangleStrip : list float -> FrameBuffer -> bool -> Color.t -> FrameBuffer.
Variable fillTriangleFan : list float -> FrameBuffer -> bool -> Color.t -> FrameBuffer.
Variable fillTrianglesIndex :
  list float -> list nat -> nat -> FrameBuffer -> bool -> Color.t -> FrameBuffer.
Variable fillTriangles :
  list (option float) -> nat -> FrameBuffer -> bool -> Color.t -> FrameBuffer.

(** The state a drawing command runs in: the target surface, and the fill
    operations invoked so far, oldest first. *)
Record Canvas : Type := mkCanvas { surface : FrameBuffer; fills : list FillCall }.

Definition GeometricProcessor_fillTriangleStrip
  (vertices : list float) (frame : Canvas) (drawBorder : bool) (borderColor : Color.t)
  : Canvas :=
  mkCanvas (fillTriangleStrip vertices (surface frame) drawBorder borderColor)
           (fills frame ++ [FillTriangleStrip vertices drawBorder borderColor]).

Definition GeometricProcessor_fillTriangleFan
  (vertices : list float) (frame : Canvas) (drawBorder : bool) (borderColor : Color.t)
  : Canvas :=
  mkCanvas (fillTriangleFan vertices (surface frame) drawBorder borderColor)
           (fills frame ++ [FillTriangleFan vertices drawBorder borderColor]).

Definition GeometricProcessor_fillTrianglesIndex
  (vertices : list float) (indices : list nat) (numTriangles : nat)
  (frame : Canvas) (drawBorder : bool) (borderColor : Color.t) : Canvas :=
  mkCanvas
    (fillTrianglesIndex vertices indices numTriangles (surface frame) drawBorder borderColor)
    (fills frame ++ [FillTrianglesIndex vertices indices numTriangles drawBorder borderColor]).

Definition GeometricProcessor_fillTriangles
  (vertices : list (option float)) (numTriangles : nat)
  (frame : Canvas) (drawBorder : bool) (borderColor : Color.t) : Canvas :=
  mkCanvas (fillTriangles vertices numTriangles (surface frame) drawBorder borderColor)
           (fills frame ++ [FillTriangles vertices numTriangles drawBorder borderColor]).

(** *** generateTriangleStrip *)

Definition innerRadius : float := 40.
Definition outerRadius : float := 80.
Definition numSegments : nat := 18.

Definition colors : list Color.t :=
  [Color.mk 255 0 0; Color.mk 0 255 0; Color.mk 0 0 255].

(** [colors[k]]; the default is never reached, every index used is a
    remainder modulo 3 (see [palette_index_in_range]). *)
Definition colors_at (k : nat) : Color.t := nth k colors (Color.mk nan nan nan).

(** The body of the loop over the segments, for segment [i]. *)
Definition stripSegment (x y angleStep : float) (i : nat) (vertices : list float)
  : list float :=
  let currAngle := of_nat i * angleStep in
  let nextAngle := of_nat (i + 1) * angleStep in
  let x0 := x + innerRadius * cos currAngle in
  let y0 := y + innerRadius * sin currAngle in
  let x1 := x + outerRadius * cos currAngle in
  let y1 := y + outerRadius * sin currAngle in
  let x2 := x + innerRadius * cos nextAngle in
  let y2 := y + innerRadius * sin nextAngle in
  let x3 := x + outerRadius * cos nextAngle in
  let y3 := y + outerRadius * sin nextAngle in
  let vertices :=
    if (i =? 0)%nat then
      let vertices := push vertices x0 in
      let vertices := push vertices y0 in
      let vertices := push vertices 0 in
      let vertices := push vertices (floor (Color.r (colors_at (i mod 3)))) in
      let vertices := push vertices (floor (Color.g (colors_at (i mod 3)))) in
      let vertices := push vertices (floor (Color.b (colors_at (i mod 3)))) in
      let vertices := push vertices x1 in
      let vertices := push vertices y1 in
      let vertices := push vertices 0 in
      let vertices := push vertices (floor (Color.r (colors_at ((i + 2) mod 3)))) in
      let vertices := push vertices (floor (Color.g (colors_at ((i + 2) mod 3)))) in
      let vertices := push vertices (floor (Color.b (colors_at ((i + 2) mod 3)))) in
      vertices
    else vertices in
  let vertices := push vertices x2 in
  let vertices := push vertices y2 in
  let vertices := push vertices 0 in
  let vertices := push vertices (floor (Color.r (colors_at ((i + 1) mod 3)))) in
  let vertices := push vertices (floor (Color.g (colors_at ((i + 1) mod 3)))) in
  let vertices := push vertices (floor (Color.b (colors_at ((i + 1) mod 3)))) in
  let vertices := push vertices x3 in
  let vertices := push vertices y3 in
  let vertices := push vertices 0 in
  let vertices := push vertices (floor (Color.r (colors_at (i mod 3)))) in
  let vertices := push vertices (floor (Color.g (colors_at (i mod 3)))) in
  let vertices := push vertices (floor (Color.b (colors_at (i mod 3)))) in
  vertices.

(** The generator with the segment count as a parameter; the source fixes
    it to [numSegments]. *)
Definition triangleStripOf (numSegments : nat) (width height : float) : list float :=
  let x := width / 2 in
  let y := height / 2 in
  let vertices : list float := [] in
  let angleStep := 2 * PI / of_nat numSegments in
  for_range numSegments (stripSegment x y angleStep) vertices.

Definition generateTriangleStrip (width height : float) : list float :=
  triangleStripOf numSegments width height.

Definition renderTriangleStrip (frame : Canvas) (drawBorder : bool) (borderColor : Color.t)
  : Canvas :=
  let vertices := generateTriangleStrip (width (surface frame)) (height (surface frame)) in
  GeometricProcessor_fillTriangleStrip vertices frame drawBorder borderColor.

(** A point of the ring of radius [radius] around [(x, y)], as a vertex
    record with the colour of palette entry [k]. *)
Definition ringVertex (x y radius angle : float) (k : nat) : list float :=
  [x + radius * cos angle; y + radius * sin angle; 0;
   floor (Color.r (colors_at k)); floor (Color.g (colors_at k));
   floor (Color.b (colors_at k))].

(** What segment [i] appends. *)
Definition stripSegmentOutput (x y angleStep : float) (i : nat) : list float :=
  (if (i =? 0)%nat then
     ringVertex x y innerRadius (of_nat i * angleStep) (i mod 3) ++
     ringVertex x y outerRadius (of_nat i * angleStep) ((i + 2) mod 3)
   else []) ++
  ringVertex x y innerRadius (of_nat (i + 1) * angleStep) ((i + 1) mod 3) ++
  ringVertex x y outerRadius (of_nat (i + 1) * angleStep) (i mod 3).

(** The inner and the outer ring point at step [k] of the ring. *)
Definition ringPair (x y angleStep : float) (k : nat) : list float :=
  ringVertex x y innerRadius (of_nat k * angleStep) (k mod 3) ++
  ringVertex x y outerRadius (of_nat k * angleStep) ((k + 2) mod 3).

(** The radius of the ring that the vertex at position [q] of the strip is
    on: the positions alternate between the inner and the outer ring. *)
Definition ringRadius (q : nat) : float :=
  if Nat.even q then innerRadius else outerRadius.

(** The angle of the vertex at position [q] of the strip: step [q / 2] of
    the ring. *)
Definition stripAngle (q : nat) : float :=
  of_nat (q / 2) * (2 * PI / of_nat numSegments).

(** The palette entry of the vertex at position [q] of the strip. *)
Definition stripColour (q : nat) : nat :=
  if Nat.even q then ((q / 2) mod 3)%nat else ((q / 2 + 2) mod 3)%nat.

(** *** generateTriangleFan *)

(** The body of the loop over the rim points. *)
Definition fanRim (x y r : float) (numTriangles : nat) (color1 color2 : Color.t)
  (i : nat) (vertices : list float) : list float :=
  let s := of_nat i / of_nat numTriangles in
  let color := color1 in
  let color := if (i mod 2 =? 0)%nat then color2 else color in
  let angle := (- s) * PI / 2 in
  let x1 := x + r * cos angle in
  let y1 := y + r * sin angle in
  let vertices := push vertices x1 in
  let vertices := push vertices y1 in
  let vertices := push vertices 0 in
  let vertices := push vertices (floor (Color.r color)) in
  let vertices := push vertices (floor (Color.g color)) in
  let vertices := push vertices (floor (Color.b color)) in
  vertices.

(** The vertex buffer of the fan, with the number of triangles as a
    parameter; the source fixes it to 5. *)
Definition triangleFanOf (numTriangles : nat) (frameHeight : float) : list float :=
  let x := 10 in
  let y := frameHeight - 10 in
  let r := 150 in
  let color0 := Color.mk 255 0 0 in
  let color1 := Color.mk 0 255 0 in
  let color2 := Color.mk 0 0 255 in
  let vertices : list float := [] in
  let vertices := push vertices x in
  let vertices := push vertices y in
  let vertices := push vertices 0 in
  let vertices := push vertices (floor (Color.r color0)) in
  let vertices := push vertices (floor (Color.g color0)) in
  let vertices := push vertices (floor (Color.b color0)) in
  for_range (numTriangles + 1) (fanRim x y r numTriangles color1 color2) vertices.

Definition generateTriangleFan (frame : Canvas) (drawBorder : bool) (borderColor : Color.t)
  : Canvas :=
  let numTriangles := 5%nat in
  let vertices := triangleFanOf numTriangles (height (surface frame)) in
  GeometricProcessor_fillTriangleFan vertices frame drawBorder borderColor.

(** What step [i] of the rim loop appends. *)
Definition fanRimOutput (numTriangles : nat) (frameHeight : float) (i : nat) : list float :=
  let color := if (i mod 2 =? 0)%nat then Color.mk 0 0 255 else Color.mk 0 255 0 in
  let angle := (- (of_nat i / of_nat numTriangles)) * PI / 2 in
  [10 + 150 * cos angle; (frameHeight - 10) + 150 * sin angle; 0;
   floor (Color.r color); floor (Color.g color); floor (Color.b color)].

(** The rim vertex of step [i]: its position on the quarter circle, and blue
    or green by the parity of [i]. *)
Definition fanRimVertex (numTriangles : nat) (frameHeight : float) (i : nat) : list float :=
  let angle := (- (of_nat i / of_nat numTriangles)) * PI / 2 in
  [10 + 150 * cos angle; (frameHeight - 10) + 150 * sin angle; 0] ++
  (if Nat.even i then [0; 0; 255] else [0; 255; 0]).

(** *** generateTrianglesIndex *)

(** The grid vertex of cell [(i, j)]: position and interpolated colour. *)
Definition gridVertex (x_steps y_steps i j : nat) : list float :=
  let color :=
    interpolate2d (Color.mk 255 0 0) (Color.mk 0 255 0) (Color.mk 0 0 255)
      (Color.mk 255 255 0) (of_nat i / of_nat x_steps) (of_nat j / of_nat y_steps) in
  [10 + of_nat i * (180 / of_nat x_steps); 10 + of_nat j * (100 / of_nat y_steps); 0;
   floor (Color.r color); floor (Color.g color); floor (Color.b color)].

(** The vertex index of grid cell [(i, j)]. *)
Definition cellIndex (y_steps i j : nat) : nat := (i * (y_steps + 1) + j)%nat.

(** The two triangles of the quad whose corner is cell [(i, j)]. *)
Definition triangleA (y_steps i j : nat) : list nat :=
  [cellIndex y_steps i j; cellIndex y_steps i (j + 1); cellIndex y_steps (i + 1) j].
Definition triangleB (y_steps i j : nat) : list nat :=
  [cellIndex y_steps i (j + 1); cellIndex y_steps (i + 1) (j + 1);
   cellIndex y_steps (i + 1) j].

(** The inner body of the vertex pass; the state is [(vertices, num_vertices)]. *)
Definition meshIndexVertex (x y x_step y_step : float) (x_steps y_steps : nat)
  (color0 color1 color2 color3 : Color.t) (i j : nat) (st : list float * nat)
  : list float * nat :=
  let '(vertices, num_vertices) := st in
  let s := of_nat i / of_nat x_steps in
  let t := of_nat j / of_nat y_steps in
  let color := interpolate2d color0 color1 color2 color3 s t in
  let vertices := push vertices (x + of_nat i * x_step) in
  let vertices := push vertices (y + of_nat j * y_step) in
  let vertices := push vertices 0 in
  let vertices := push vertices (floor (Color.r color)) in
  let vertices := push vertices (floor (Color.g color)) in
  let vertices := push vertices (floor (Color.b color)) in
  let num_vertices := (num_vertices + 1)%nat in
  (vertices, num_vertices).

(** The inner body of the index pass; the state is [(indices, numTriangles)]. *)
Definition meshIndexCell (y_steps : nat) (i j : nat) (st : list nat * nat)
  : list nat * nat :=
  let '(indices, numTriangles) := st in
  let indices := push indices (i * (y_steps + 1) + j)%nat in
  let indices := push indices (i * (y_steps + 1) + j + 1)%nat in
  let indices := push indices ((i + 1) * (y_steps + 1) + j)%nat in
  let indices := push indices (i * (y_steps + 1) + j + 1)%nat in
  let indices := push indices ((i + 1) * (y_steps + 1) + j + 1)%nat in
  let indices := push indices ((i + 1) * (y_steps + 1) + j)%nat in
  let numTriangles := (numTriangles + 2)%nat in
  (indices, numTriangles).

(** What the indexed-mesh generator hands to the rasterizer. *)
Record IndexedMesh : Type := mkIndexedMesh {
  im_vertices : list float;
  im_num_vertices : nat;
  im_indices : list nat;
  im_numTriangles : nat
}.

(** The two passes, with the grid resolution as parameters; the source fixes
    it to 10 by 5. *)
Definition trianglesIndexOf (x_steps y_steps : nat) : IndexedMesh :=
  let x := 10 in
  let y := 10 in
  let w := 180 in
  let h := 100 in
  let x_step := w / of_nat x_steps in
  let y_step := h / of_nat y_steps in
  let color0 := Color.mk 255 0 0 in
  let color1 := Color.mk 0 255 0 in
  let color2 := Color.mk 0 0 255 in
  let color3 := Color.mk 255 255 0 in
  let '(vertices, num_vertices) :=
    for_range (x_steps + 1) (fun i =>
      for_range (y_steps + 1)
        (meshIndexVertex x y x_step y_step x_steps y_steps color0 color1 color2 color3 i))
      ([], 0%nat) in
  let '(indices, numTriangles) :=
    for_range x_steps (fun i => for_range y_steps (meshIndexCell y_steps i))
      ([], 0%nat) in
  mkIndexedMesh vertices num_vertices indices numTriangles.

Definition generateTrianglesIndex (frame : Canvas) (drawBorder : bool)
  (borderColor : Color.t) : Canvas :=
  let x_steps := 10%nat in
  let y_steps := 5%nat in
  let m := trianglesIndexOf x_steps y_steps in
  GeometricProcessor_fillTrianglesIndex (im_vertices m) (im_indices m) (im_numTriangles m)
    frame drawBorder borderColor.

(** *** generateTriangles *)

(** The inner body of the vertex pass that fills the scratch array. *)
Definition meshFlatVertex (x y x_step y_step : float) (x_steps y_steps : nat)
  (color0 color1 color2 color3 : Color.t) (i j : nat) (st : list float * nat)
  : list float * nat :=
  let '(tmpVertices, num_vertices) := st in
  let s := of_nat i / of_nat x_steps in
  let t := of_nat j / of_nat y_steps in
  let color := interpolate2d color0 color1 color2 color3 s t in
  let tmpVertices := push tmpVertices (x + of_nat i * x_step) in
  let tmpVertices := push tmpVertices (y + of_nat j * y_step) in
  let tmpVertices := push tmpVertices 0 in
  let tmpVertices := push tmpVertices (floor (Color.r color)) in
  let tmpVertices := push tmpVertices (floor (Color.g color)) in
  let tmpVertices := push tmpVertices (floor (Color.b color)) in
  let num_vertices := (num_vertices + 1)%nat in
  (tmpVertices, num_vertices).

(** The local function [pushVertex]: copies the six slots of vertex [index]
    of the scratch array to the end of [vertices]. *)
Definition pushVertex (tmpVertices : list float) (index : nat)
  (vertices : list (option float)) : list (option float) :=
  let index := (index * 6)%nat in
  let vertices := push vertices (get tmpVertices index) in
  let vertices := push vertices (get tmpVertices (index + 1)) in
  let vertices := push vertices (get tmpVertices (index + 2)) in
  let vertices := push vertices (get tmpVertices (index + 3)) in
  let vertices := push vertices (get tmpVertices (index + 4)) in
  let vertices := push vertices (get tmpVertices (index + 5)) in
  vertices.

(** The inner body of the expansion pass; the state is
    [(vertices, numTriangles)]. *)
Definition meshFlatCell (tmpVertices : list float) (y_steps : nat) (i j : nat)
  (st : list (option float) * nat) : list (option float) * nat :=
  let '(vertices, numTriangles) := st in
  let vertexIndex := (i * (y_steps + 1) + j)%nat in
  let vertices := pushVertex tmpVertices vertexIndex vertices in
  let vertexIndex := (i * (y_steps + 1) + j + 1)%nat in
  let vertices := pushVertex tmpVertices vertexIndex vertices in
  let vertexIndex := ((i + 1) * (y_steps + 1) + j)%nat in
  let vertices := pushVertex tmpVertices vertexIndex vertices in
  let vertexIndex := (i * (y_steps + 1) + j + 1)%nat in
  let vertices := pushVertex tmpVertices vertexIndex vertices in
  let vertexIndex := ((i + 1) * (y_steps + 1) + j + 1)%nat in
  let vertices := pushVertex tmpVertices vertexIndex vertices in
  let vertexIndex := ((i + 1) * (y_steps + 1) + j)%nat in
  let vertices := pushVertex tmpVertices vertexIndex vertices in
  let numTriangles := (numTriangles + 2)%nat in
  (vertices, numTriangles).

(** What the flattened-mesh generator hands to the rasterizer. *)
Record FlatMesh : Type := mkFlatMesh {
  fm_vertices : list (option float);
  fm_numTriangles : nat
}.

(** The two passes, with the grid resolution as parameters; the source fixes
    it to 1 by 1. *)
Definition trianglesOf (x_steps y_steps : nat) : FlatMesh :=
  let x := 10 in
  let y := 10 in
  let w := 180 in
  let h := 100 in
  let x_step := w / of_nat x_steps in
  let y_step := h / of_nat y_steps in
  let color0 := Color.mk 255 0 0 in
  let color1 := Color.mk 0 255 0 in
  let color2 := Color.mk 0 0 255 in
  let color3 := Color.mk 255 255 0 in
  let '(tmpVertices, num_vertices) :=
    for_range (x_steps + 1) (fun i =>
      for_range (y_steps + 1)
        (meshFlatVertex x y x_step y_step x_steps y_steps color0 color1 color2 color3 i))
      ([], 0%nat) in
  let '(vertices, numTriangles) :=
    for_range x_steps (fun i => for_range y_steps (meshFlatCell tmpVertices y_steps i))
      ([], 0%nat) in
  mkFlatMesh vertices numTriangles.

Definition generateTriangles (frame : Canvas) (drawBorder : bool) (borderColor : Color.t)
  : Canvas :=
  let x_steps := 1%nat in
  let y_steps := 1%nat in
  let m := trianglesOf x_steps y_steps in
  GeometricProcessor_fillTriangles (fm_vertices m) (fm_numTriangles m)
    frame drawBorder borderColor.

(** The six slots that [pushVertex] copies for vertex [index]. *)
Definition vertexSlots (tmpVertices : list float) (index : nat) : list (option float) :=
  [get tmpVertices (index * 6); get tmpVertices (index * 6 + 1);
   get tmpVertices (index * 6 + 2); get tmpVertices (index * 6 + 3);
   get tmpVertices (index * 6 + 4); get tmpVertices (index * 6 + 5)].

(** What the expansion pass appends for cell [(i, j)]. *)
Definition cellSlots (tmpVertices : list float) (Y i j : nat) : list (option float) :=
  flat_map (vertexSlots tmpVertices) (triangleA Y i j ++ triangleB Y i j).

(** *** The catalog *)

(** The receiver of a call.  A method called on the manager has the manager
    as [this]; the same function value called on its own, as a [Map] hands it
    out, has [this] undefined. *)
Inductive Receiver : Type := ThisManager | ThisUndefined.

(** How a call ends: it returns, or it throws a [TypeError]; either way with
    the canvas as the call left it. *)
Inductive Outcome : Type :=
| Returned (frame : Canvas)
| ThrewTypeError (frame : Canvas).

(** A function value of the class, not yet bound to a receiver. *)
Definition Tester : Type := Receiver -> Canvas -> bool -> Color.t -> Outcome.

(** The three generators never read [this]: as function values they do what
    the methods do, whatever the receiver. *)
Definition generateTrianglesIndex_value : Tester :=
  fun _ frame drawBorder borderColor =>
    Returned (generateTrianglesIndex frame drawBorder borderColor).

Definition generateTriangles_value : Tester :=
  fun _ frame drawBorder borderColor =>
    Returned (generateTriangles frame drawBorder borderColor).

Definition generateTriangleFan_value : Tester :=
  fun _ frame drawBorder borderColor =>
    Returned (generateTriangleFan frame drawBorder borderColor).

(** [renderTriangleStrip] starts by reading [this.generateTriangleStrip]: with
    [this] undefined that read throws, before anything is drawn. *)
Definition renderTriangleStrip_value : Tester :=
  fun this frame drawBorder borderColor =>
    match this with
    | ThisManager => Returned (renderTriangleStrip frame drawBorder borderColor)
    | ThisUndefined => ThrewTypeError frame
    end.

(** The registry filled by the constructor: it stores the function values,
    unbound. *)
Definition modelTesters : Map Tester :=
  let m : Map Tester := [] in
  let m := map_set m "meshIndex" generateTrianglesIndex_value in
  let m := map_set m "meshTriangles" generateTriangles_value in
  let m := map_set m "triangleFan" generateTriangleFan_value in
  let m := map_set m "triangleStrip" renderTriangleStrip_value in
  m.

Definition getModels : list string := map_keys modelTesters.

Definition getModel (model : string) (width height : float) : list float :=
  if String.eqb model "triangleStrip" then generateTriangleStrip width height
  else [].

Definition drawModel (model : string) (frame : Canvas) (drawBorder : bool)
  (borderColor : Color.t) : Canvas :=
  if String.eqb model "triangleStrip" then renderTriangleStrip frame drawBorder borderColor
  else if String.eqb model "triangleFan" then generateTriangleFan frame drawBorder borderColor
  else if String.eqb model "meshIndex" then generateTrianglesIndex frame drawBorder borderColor
  else if String.eqb model "meshTriangles" then generateTriangles frame drawBorder borderColor
  else frame.

(** *** Reading the buffers and the registry *)

(** The colour (r, g, b) of a vertex record. *)
Definition vertexColour {A : Type} (v : list A) : list A := skipn 3 v.

(** The colour records of the three entries of [colors], as the strip and the
    fan push them: red, green, blue. *)
Definition palette : list (list float) :=
  map (fun c => [floor (Color.r c); floor (Color.g c); floor (Color.b c)]) colors.

(** [m.get(k)] of a [Map]: the value stored under [k], [None] for
    [undefined]. *)
Fixpoint map_get {V : Type} (m : Map V) (k : string) : option V :=
  match m with
  | [] => None
  | (k', v) :: m' => if String.eqb k' k then Some v else map_get m' k
  end.

(** ** Loops that only push *)

Lemma for_range_push {A : Type} (f : nat -> list A) (body : nat -> list A -> list A) :
  (forall i acc, body i acc = acc ++ f i) ->
  forall n init, for_range n body init = init ++ flat_map f (seq 0 n).
Proof.
  intros Hbody n init. unfold for_range.
  generalize 0%nat as start. revert init.
  induction n as [|n IH]; intros init start; simpl.
  - now rewrite app_nil_r.
  - rewrite IH, Hbody, <- app_assoc. reflexivity.
Qed.

(** The same for a loop that pushes and counts. *)
Lemma for_range_push_count {A : Type} (f : nat -> list A) (k : nat)
  (body : nat -> list A * nat -> list A * nat) :
  (forall i acc c, body i (acc, c) = (acc ++ f i, c + k)%nat) ->
  forall n init c,
    for_range n body (init, c) = (init ++ flat_map f (seq 0 n), c + k * n)%nat.
Proof.
  intros Hbody n init c. unfold for_range.
  generalize 0%nat as start. revert init c.
  induction n as [|n IH]; intros init c start; simpl.
  - rewrite app_nil_r. f_equal. lia.
  - rewrite Hbody, IH, <- app_assoc. f_equal. lia.
Qed.

Lemma flat_map_const_length {A B : Type} (f : A -> list B) (k : nat) (l : list A) :
  (forall a, List.length (f a) = k) ->
  List.length (flat_map f l) = (k * List.length l)%nat.
Proof.
  intros Hf. induction l as [|a l IH]; simpl.
  - lia.
  - rewrite length_app, Hf, IH. lia.
Qed.

(** The block of a [flat_map] with constant block length [k] is found at
    offset [k * i]. *)
Lemma flat_map_block {A B : Type} (f : A -> list B) (k : nat) (l : list A) :
  (forall a, List.length (f a) = k) ->
  forall i a, nth_error l i = Some a ->
  firstn k (skipn (k * i) (flat_map f l)) = f a.
Proof.
  intros Hf. induction l as [|a0 l IH]; intros i a Hi.
  - destruct i; discriminate.
  - destruct i as [|i]; simpl in Hi.
    + injection Hi as ->. rewrite Nat.mul_0_r. simpl.
      rewrite firstn_app, <- (Hf a), firstn_all, Nat.sub_diag. simpl.
      now rewrite app_nil_r.
    + simpl flat_map.
      replace (k * S i)%nat with (List.length (f a0) + k * i)%nat by (rewrite Hf; lia).
      rewrite skipn_app, skipn_all2 by lia.
      replace (List.length (f a0) + k * i - List.length (f a0))%nat with (k * i)%nat by lia.
      simpl. now apply IH.
Qed.

Lemma nth_error_seq (start len i : nat) :
  (i < len)%nat -> nth_error (seq start len) i = Some (start + i)%nat.
Proof.
  revert start i. induction len as [|len IH]; intros start i Hi; [lia|].
  destruct i as [|i]; simpl.
  - f_equal. lia.
  - rewrite IH by lia. f_equal. lia.
Qed.

Lemma flat_map_seq_block {B : Type} (f : nat -> list B) (k n i : nat) :
  (forall a, List.length (f a) = k) -> (i < n)%nat ->
  firstn k (skipn (k * i) (flat_map f (seq 0 n))) = f i.
Proof.
  intros Hf Hi. apply flat_map_block; [assumption|].
  now rewrite nth_error_seq.
Qed.

(** A sub-block of a block: reading [a] elements at offset [b] inside the
    window of length [c] at offset [o]. *)
Lemma firstn_skipn_window {A : Type} (l : list A) (a b c o : nat) :
  (a + b <= c)%nat ->
  firstn a (skipn b (firstn c (skipn o l))) = firstn a (skipn (o + b) l).
Proof.
  intros Hle. rewrite skipn_firstn_comm, firstn_firstn, skipn_skipn.
  f_equal; [lia | f_equal; lia].
Qed.

(** *** Math.floor on the channel values that occur as literals *)

Example floor_examples :
  floor 255 = 255 /\ floor 0 = 0 /\ floor 2.5 = 2 /\ floor (-2.5) = -3 /\
  floor 0.75 = 0 /\ floor (-0.25) = -1 /\ floor (-0) = (-0) /\
  floor 127.5 = 127 /\ floor infinity = infinity /\ floor 0x1p60 = 0x1p60.
Proof. repeat split; reflexivity. Qed.

(** ** The triangle strip *)

Lemma palette_index_in_range (i : nat) : (i mod 3 < List.length colors)%nat.
Proof. change (List.length colors) with 3%nat. apply Nat.mod_upper_bound. discriminate. Qed.

Lemma ringVertex_length x y radius angle k :
  List.length (ringVertex x y radius angle k) = 6%nat.
Proof. reflexivity. Qed.

Lemma stripSegment_push x y angleStep i vertices :
  stripSegment x y angleStep i vertices =
  vertices ++ stripSegmentOutput x y angleStep i.
Proof.
  unfold stripSegment, stripSegmentOutput, ringVertex, push.
  destruct (i =? 0)%nat; cbv zeta; repeat rewrite <- app_assoc; reflexivity.
Qed.

Lemma triangleStripOf_flat n w h :
  triangleStripOf n w h =
  flat_map (stripSegmentOutput (w / 2) (h / 2) (2 * PI / of_nat n)) (seq 0 n).
Proof.
  unfold triangleStripOf. cbv zeta.
  now rewrite (for_range_push _ _ (stripSegment_push _ _ _)).
Qed.

Lemma stripSegmentOutput_succ x y angleStep i :
  stripSegmentOutput x y angleStep (S i) = ringPair x y angleStep (S (S i)).
Proof.
  unfold stripSegmentOutput, ringPair. cbn [Nat.eqb app].
  replace (S i + 1)%nat with (S (S i)) by lia.
  replace ((S (S i) + 2) mod 3)%nat with (S i mod 3)%nat; [reflexivity|].
  replace (S (S i) + 2)%nat with (S i + 1 * 3)%nat by lia.
  now rewrite Nat.Div0.mod_add.
Qed.

(** With at least one segment, the strip is the sequence of ring pairs of the
    steps [0 .. n]. *)
Lemma triangleStripOf_pairs n w h :
  (0 < n)%nat ->
  triangleStripOf n w h =
  flat_map (ringPair (w / 2) (h / 2) (2 * PI / of_nat n)) (seq 0 (n + 1)).
Proof.
  intros Hn. rewrite triangleStripOf_flat.
  destruct n as [|n]; [lia|].
  generalize (2 * PI / of_nat (S n)) as angleStep. intros angleStep.
  replace (S n + 1)%nat with (S (S n)) by lia.
  cbn [seq flat_map].
  assert (Hrest : forall m start,
    flat_map (stripSegmentOutput (w / 2) (h / 2) angleStep) (seq (S start) m) =
    flat_map (ringPair (w / 2) (h / 2) angleStep) (seq (S (S start)) m)).
  { induction m as [|m IH]; intros start; [reflexivity|].
    cbn [seq flat_map]. now rewrite stripSegmentOutput_succ, IH. }
  rewrite Hrest. rewrite app_assoc. f_equal.
Qed.

Lemma ringPair_length x y angleStep k : List.length (ringPair x y angleStep k) = 12%nat.
Proof. reflexivity. Qed.

Lemma triangleStripOf_length n w h :
  (0 < n)%nat -> List.length (triangleStripOf n w h) = (6 * (2 * n + 2))%nat.
Proof.
  intros Hn. rewrite triangleStripOf_pairs by assumption.
  rewrite (@flat_map_const_length _ _ _ 12) by (intros; apply ringPair_length).
  rewrite length_seq. lia.
Qed.

(** Vertices at even positions are inner ring points, vertices at odd
    positions are outer ring points, both at the angle of step [k].  How far
    the computed coordinates are from the centre is a matter of the rounding
    of binary64 and of the accuracy of the engine's [Math.cos] and [Math.sin];
    this lemma states what does not depend on either. *)
Lemma triangleStripOf_vertex n w h k :
  (0 < n)%nat -> (k <= n)%nat ->
  let x := w / 2 in
  let y := h / 2 in
  let angleStep := 2 * PI / of_nat n in
  vertexAt (triangleStripOf n w h) (2 * k) =
    ringVertex x y innerRadius (of_nat k * angleStep) (k mod 3) /\
  vertexAt (triangleStripOf n w h) (2 * k + 1) =
    ringVertex x y outerRadius (of_nat k * angleStep) ((k + 2) mod 3).
Proof.
  intros Hn Hk x y angleStep.
  rewrite triangleStripOf_pairs by assumption. fold x y angleStep.
  assert (Hblock :
    firstn 12 (skipn (12 * k) (flat_map (ringPair x y angleStep) (seq 0 (n + 1)))) =
    ringPair x y angleStep k).
  { apply flat_map_seq_block; [intros; apply ringPair_length | lia]. }
  unfold vertexAt. split.
  - replace (6 * (2 * k))%nat with (12 * k + 0)%nat by lia.
    rewrite <- (@firstn_skipn_window _ _ 6 0 12 (12 * k)) by lia.
    rewrite Hblock. reflexivity.
  - replace (6 * (2 * k + 1))%nat with (12 * k + 6)%nat by lia.
    rewrite <- (@firstn_skipn_window _ _ 6 6 12 (12 * k)) by lia.
    rewrite Hblock. reflexivity.
Qed.

(** ** Grids: a loop inside a loop *)

Lemma grid_length {B : Type} (f : nat -> nat -> list B) (k n m : nat) :
  (forall a b, List.length (f a b) = k) ->
  List.length (flat_map (fun i => flat_map (f i) (seq 0 m)) (seq 0 n)) = (k * (m * n))%nat.
Proof.
  intros Hf.
  rewrite (@flat_map_const_length _ _ _ (k * m)).
  - rewrite length_seq. lia.
  - intros a. rewrite (@flat_map_const_length _ _ _ k) by (intros; apply Hf).
    now rewrite length_seq.
Qed.

(** Row-major addressing: the block of cell [(i, j)] of an [n] by [m] grid
    starts at offset [k * (i * m + j)]. *)
Lemma grid_block {B : Type} (f : nat -> nat -> list B) (k n m i j : nat) :
  (forall a b, List.length (f a b) = k) -> (i < n)%nat -> (j < m)%nat ->
  firstn k (skipn (k * (i * m + j))
    (flat_map (fun i => flat_map (f i) (seq 0 m)) (seq 0 n))) = f i j.
Proof.
  intros Hf Hi Hj.
  set (G := flat_map (fun i => flat_map (f i) (seq 0 m)) (seq 0 n)).
  assert (Hrow : firstn (k * m) (skipn (k * m * i) G) = flat_map (f i) (seq 0 m)).
  { apply (@flat_map_seq_block _ (fun i => flat_map (f i) (seq 0 m)) (k * m) n i);
      [|assumption].
    intros a. rewrite (@flat_map_const_length _ _ _ k) by (intros; apply Hf).
    now rewrite length_seq. }
  rewrite <- (@flat_map_seq_block _ (f i) k m j (Hf i) Hj), <- Hrow.
  rewrite firstn_skipn_window by nia.
  f_equal. f_equal. lia.
Qed.

Lemma for_range_grid {A : Type} (f : nat -> nat -> list A) (k n m : nat)
  (body : nat -> nat -> list A * nat -> list A * nat) :
  (forall i j acc c, body i j (acc, c) = (acc ++ f i j, c + k)%nat) ->
  for_range n (fun i => for_range m (body i)) ([], 0%nat) =
  (flat_map (fun i => flat_map (f i) (seq 0 m)) (seq 0 n), k * m * n)%nat.
Proof.
  intros Hbody.
  rewrite (@for_range_push_count _ (fun i => flat_map (f i) (seq 0 m)) (k * m)).
  - reflexivity.
  - intros i acc c. now rewrite (@for_range_push_count _ (f i) k (body i) (Hbody i)).
Qed.

(** ** The triangle fan *)

Lemma fanRim_push n h i vertices :
  fanRim 10 (h - 10) 150 n (Color.mk 0 255 0) (Color.mk 0 0 255) i vertices =
  vertices ++ fanRimOutput n h i.
Proof.
  unfold fanRim, fanRimOutput, push. cbv zeta.
  repeat rewrite <- app_assoc. reflexivity.
Qed.

Lemma even_mod2 (i : nat) : (i mod 2 =? 0)%nat = Nat.even i.
Proof.
  destruct (Nat.even i) eqn:E.
  - apply Nat.even_spec in E. destruct E as [m ->].
    rewrite Nat.mul_comm, Nat.Div0.mod_mul. reflexivity.
  - assert (O : Nat.odd i = true) by (unfold Nat.odd; now rewrite E).
    apply Nat.odd_spec in O. destruct O as [m ->].
    rewrite Nat.add_comm, Nat.mul_comm, Nat.Div0.mod_add. reflexivity.
Qed.

Lemma fanRimOutput_vertex n h i : fanRimOutput n h i = fanRimVertex n h i.
Proof.
  unfold fanRimOutput, fanRimVertex. rewrite even_mod2.
  destruct (Nat.even i); reflexivity.
Qed.

Lemma triangleFanOf_flat n h :
  triangleFanOf n h =
  [10; h - 10; 0; 255; 0; 0] ++ flat_map (fanRimVertex n h) (seq 0 (n + 1)).
Proof.
  unfold triangleFanOf. cbv zeta.
  rewrite (for_range_push _ _ (fanRim_push n h)).
  f_equal. apply flat_map_ext. intros i. apply fanRimOutput_vertex.
Qed.

Lemma fanRimVertex_length n h i : List.length (fanRimVertex n h i) = 6%nat.
Proof. unfold fanRimVertex. now destruct (Nat.even i). Qed.

(** ** The indexed mesh *)

Lemma gridVertex_length X Y i j : List.length (gridVertex X Y i j) = 6%nat.
Proof. reflexivity. Qed.

Lemma meshIndexVertex_push X Y i j vertices num_vertices :
  meshIndexVertex 10 10 (180 / of_nat X) (100 / of_nat Y) X Y
    (Color.mk 255 0 0) (Color.mk 0 255 0) (Color.mk 0 0 255) (Color.mk 255 255 0)
    i j (vertices, num_vertices) =
  (vertices ++ gridVertex X Y i j, num_vertices + 1)%nat.
Proof.
  unfold meshIndexVertex, gridVertex, push. cbv zeta.
  repeat rewrite <- app_assoc. reflexivity.
Qed.

Lemma meshIndexCell_push Y i j indices numTriangles :
  meshIndexCell Y i j (indices, numTriangles) =
  (indices ++ (triangleA Y i j ++ triangleB Y i j), numTriangles + 2)%nat.
Proof.
  unfold meshIndexCell, triangleA, triangleB, cellIndex, push. cbv zeta.
  repeat rewrite <- app_assoc. cbn [app].
  replace (i * (Y + 1) + (j + 1))%nat with (i * (Y + 1) + j + 1)%nat by lia.
  replace ((i + 1) * (Y + 1) + (j + 1))%nat with ((i + 1) * (Y + 1) + j + 1)%nat by lia.
  reflexivity.
Qed.

Lemma cell_triangles_length Y i j :
  List.length (triangleA Y i j ++ triangleB Y i j) = 6%nat.
Proof. reflexivity. Qed.

(** The four outputs of the two passes, in closed form. *)
Lemma trianglesIndexOf_flat X Y :
  trianglesIndexOf X Y =
  mkIndexedMesh
    (flat_map (fun i => flat_map (gridVertex X Y i) (seq 0 (Y + 1))) (seq 0 (X + 1)))
    (1 * (Y + 1) * (X + 1))
    (flat_map (fun i => flat_map (fun j => triangleA Y i j ++ triangleB Y i j) (seq 0 Y))
       (seq 0 X))
    (2 * Y * X).
Proof.
  unfold trianglesIndexOf. cbv zeta.
  rewrite (@for_range_grid _ (gridVertex X Y) 1 (X + 1) (Y + 1))
    by (intros; apply meshIndexVertex_push).
  rewrite (@for_range_grid _ (fun i j => triangleA Y i j ++ triangleB Y i j) 2 X Y)
    by (intros; apply meshIndexCell_push).
  reflexivity.
Qed.

Lemma trianglesIndexOf_vertices_length X Y :
  List.length (im_vertices (trianglesIndexOf X Y)) = (6 * ((X + 1) * (Y + 1)))%nat.
Proof.
  rewrite trianglesIndexOf_flat. cbn [im_vertices].
  rewrite (@grid_length _ (gridVertex X Y) 6) by (intros; apply gridVertex_length).
  lia.
Qed.

Lemma trianglesIndexOf_indices_length X Y :
  List.length (im_indices (trianglesIndexOf X Y)) = (6 * X * Y)%nat.
Proof.
  rewrite trianglesIndexOf_flat. cbn [im_indices].
  rewrite (@grid_length _ (fun i j => triangleA Y i j ++ triangleB Y i j) 6)
    by (intros; apply cell_triangles_length).
  lia.
Qed.

Lemma trianglesIndexOf_indices_bound X Y :
  Forall (fun k => k < (X + 1) * (Y + 1))%nat (im_indices (trianglesIndexOf X Y)).
Proof.
  rewrite trianglesIndexOf_flat. cbn [im_indices].
  apply Forall_flat_map, Forall_forall. intros i Hi.
  apply Forall_flat_map, Forall_forall. intros j Hj.
  apply in_seq in Hi, Hj.
  unfold triangleA, triangleB, cellIndex. cbn [app].
  repeat constructor; nia.
Qed.

Lemma trianglesIndexOf_vertex X Y i j :
  (i <= X)%nat -> (j <= Y)%nat ->
  vertexAt (im_vertices (trianglesIndexOf X Y)) (cellIndex Y i j) = gridVertex X Y i j.
Proof.
  intros Hi Hj. rewrite trianglesIndexOf_flat. cbn [im_vertices].
  unfold vertexAt, cellIndex.
  apply (@grid_block _ (gridVertex X Y) 6 (X + 1) (Y + 1) i j); [|lia|lia].
  intros; apply gridVertex_length.
Qed.

Lemma trianglesIndexOf_cell X Y i j :
  (i < X)%nat -> (j < Y)%nat ->
  firstn 6 (skipn (6 * (i * Y + j)) (im_indices (trianglesIndexOf X Y))) =
  triangleA Y i j ++ triangleB Y i j.
Proof.
  intros Hi Hj. rewrite trianglesIndexOf_flat. cbn [im_indices].
  apply (@grid_block _ (fun i j => triangleA Y i j ++ triangleB Y i j) 6 X Y i j);
    [|lia|lia].
  intros; apply cell_triangles_length.
Qed.

(** ** The flattened mesh *)

Lemma pushVertex_push tmpVertices index vertices :
  pushVertex tmpVertices index vertices = vertices ++ vertexSlots tmpVertices index.
Proof.
  unfold pushVertex, vertexSlots, push. cbv zeta.
  repeat rewrite <- app_assoc. reflexivity.
Qed.

Lemma meshFlatCell_push tmpVertices Y i j vertices numTriangles :
  meshFlatCell tmpVertices Y i j (vertices, numTriangles) =
  (vertices ++ cellSlots tmpVertices Y i j, numTriangles + 2)%nat.
Proof.
  unfold meshFlatCell, cellSlots, triangleA, triangleB, cellIndex. cbv zeta.
  rewrite !pushVertex_push. repeat rewrite <- app_assoc. cbn [app flat_map].
  rewrite app_nil_r.
  replace (i * (Y + 1) + (j + 1))%nat with (i * (Y + 1) + j + 1)%nat by lia.
  replace ((i + 1) * (Y + 1) + (j + 1))%nat with ((i + 1) * (Y + 1) + j + 1)%nat by lia.
  reflexivity.
Qed.

Lemma cellSlots_length tmpVertices Y i j :
  List.length (cellSlots tmpVertices Y i j) = 36%nat.
Proof. reflexivity. Qed.

(** The scratch array of the flattened generator is the vertex buffer of the
    indexed generator at the same resolution. *)
Lemma trianglesOf_flat X Y :
  trianglesOf X Y =
  mkFlatMesh
    (flat_map (fun i =>
       flat_map (cellSlots (im_vertices (trianglesIndexOf X Y)) Y i) (seq 0 Y)) (seq 0 X))
    (2 * Y * X).
Proof.
  rewrite trianglesIndexOf_flat. cbn [im_vertices].
  unfold trianglesOf. cbv zeta.
  assert (Hpass : forall i j vertices num_vertices,
    meshFlatVertex 10 10 (180 / of_nat X) (100 / of_nat Y) X Y
      (Color.mk 255 0 0) (Color.mk 0 255 0) (Color.mk 0 0 255) (Color.mk 255 255 0)
      i j (vertices, num_vertices) =
    (vertices ++ gridVertex X Y i j, num_vertices + 1)%nat)
    by (intros; apply meshIndexVertex_push).
  rewrite (@for_range_grid _ (gridVertex X Y) 1 (X + 1) (Y + 1) _ Hpass).
  match goal with
  | |- context [meshFlatCell ?tmp] =>
      rewrite (@for_range_grid _ (cellSlots tmp Y) 2 X Y)
        by (intros; apply meshFlatCell_push)
  end.
  reflexivity.
Qed.


Lemma trianglesOf_length X Y :
  List.length (fm_vertices (trianglesOf X Y)) = (36 * (Y * X))%nat.
Proof.
  rewrite trianglesOf_flat. cbn [fm_vertices].
  apply (@grid_length _ (cellSlots _ Y) 36). intros; apply cellSlots_length.
Qed.

Lemma trianglesOf_numTriangles X Y : fm_numTriangles (trianglesOf X Y) = (2 * Y * X)%nat.
Proof. now rewrite trianglesOf_flat. Qed.

Lemma trianglesOf_vertexCount X Y :
  vertexCount (fm_vertices (trianglesOf X Y)) = (3 * fm_numTriangles (trianglesOf X Y))%nat.
Proof.
  unfold vertexCount. rewrite trianglesOf_length, trianglesOf_numTriangles.
  replace (36 * (Y * X))%nat with ((3 * (2 * Y * X)) * 6)%nat by lia.
  now apply Nat.div_mul.
Qed.

(** A vertex that lies inside the scratch array is copied without a miss. *)
Lemma vertexSlots_in_range (l : list float) (index : nat) :
  (6 * index + 6 <= List.length l)%nat ->
  vertexSlots l index = map Some (vertexAt l index).
Proof.
  intros Hlen. unfold vertexSlots, vertexAt, get.
  replace (index * 6)%nat with (6 * index + 0)%nat by lia.
  replace (6 * index + 0 + 1)%nat with (6 * index + 1)%nat by lia.
  replace (6 * index + 0 + 2)%nat with (6 * index + 2)%nat by lia.
  replace (6 * index + 0 + 3)%nat with (6 * index + 3)%nat by lia.
  replace (6 * index + 0 + 4)%nat with (6 * index + 4)%nat by lia.
  replace (6 * index + 0 + 5)%nat with (6 * index + 5)%nat by lia.
  rewrite <- !nth_error_skipn.
  assert (Hs : (6 <= List.length (skipn (6 * index) l))%nat) by (rewrite length_skipn; lia).
  destruct (skipn (6 * index) l) as [|a0 [|a1 [|a2 [|a3 [|a4 [|a5 rest]]]]]];
    simpl in Hs; try lia.
  reflexivity.
Qed.

(** Both triangles of cell [(i, j)] hold, in the flattened buffer, the
    records that the indexed mesh reaches through its indices, in the same
    order. *)
Lemma trianglesOf_cell X Y i j :
  (i < X)%nat -> (j < Y)%nat ->
  let flat := fm_vertices (trianglesOf X Y) in
  let im := trianglesIndexOf X Y in
  flatTriangle flat (2 * (i * Y + j)) =
    map (map Some) (indexedTriangle (im_vertices im) (im_indices im) (2 * (i * Y + j))) /\
  flatTriangle flat (2 * (i * Y + j) + 1) =
    map (map Some) (indexedTriangle (im_vertices im) (im_indices im) (2 * (i * Y + j) + 1)).
Proof.
  intros Hi Hj flat im.
  set (c := (i * Y + j)%nat).
  set (tmp := im_vertices im).
  assert (Hflat : firstn 36 (skipn (36 * c) flat) = cellSlots tmp Y i j).
  { unfold flat. rewrite trianglesOf_flat. cbn [fm_vertices].
    apply (@grid_block _ (cellSlots tmp Y) 36 X Y i j); [|lia|lia].
    intros; apply cellSlots_length. }
  assert (Hidx : firstn 6 (skipn (6 * c) (im_indices im)) =
                 triangleA Y i j ++ triangleB Y i j)
    by (apply trianglesIndexOf_cell; assumption).
  assert (Hrec : forall e, (e < 6)%nat ->
    vertexAt flat (6 * c + e) = firstn 6 (skipn (6 * e) (cellSlots tmp Y i j))).
  { intros e He. unfold vertexAt. rewrite <- Hflat.
    rewrite firstn_skipn_window by lia. f_equal. f_equal. lia. }
  assert (Htri : forall hf, (hf < 2)%nat ->
    firstn 3 (skipn (3 * (2 * c + hf)) (im_indices im)) =
    firstn 3 (skipn (3 * hf) (triangleA Y i j ++ triangleB Y i j))).
  { intros hf Hhf. rewrite <- Hidx.
    rewrite firstn_skipn_window by lia. f_equal. f_equal. lia. }
  assert (Hin : forall a b, (a <= X)%nat -> (b <= Y)%nat ->
    vertexSlots tmp (cellIndex Y a b) = map Some (vertexAt tmp (cellIndex Y a b))).
  { intros a b Ha Hb. apply vertexSlots_in_range.
    unfold tmp, im. rewrite trianglesIndexOf_vertices_length.
    unfold cellIndex. nia. }
  unfold flatTriangle, indexedTriangle. split.
  - replace (3 * (2 * c))%nat with (6 * c + 0)%nat by lia.
    replace (6 * c + 0 + 1)%nat with (6 * c + 1)%nat by lia.
    replace (6 * c + 0 + 2)%nat with (6 * c + 2)%nat by lia.
    rewrite !Hrec by lia.
    replace (6 * c + 0)%nat with (3 * (2 * c + 0))%nat by lia.
    rewrite Htri by lia.
    unfold cellSlots, triangleA, triangleB. cbn [app flat_map firstn skipn map Nat.mul Nat.add].
    rewrite <- !Hin by lia. reflexivity.
  - replace (3 * (2 * c + 1))%nat with (6 * c + 3)%nat by lia.
    replace (6 * c + 3 + 1)%nat with (6 * c + 4)%nat by lia.
    replace (6 * c + 3 + 2)%nat with (6 * c + 5)%nat by lia.
    rewrite !Hrec by lia.
    replace (6 * c + 3)%nat with (3 * (2 * c + 1))%nat by lia.
    rewrite Htri by lia.
    unfold cellSlots, triangleA, triangleB. cbn [app flat_map firstn skipn map Nat.mul Nat.add].
    rewrite <- !Hin by lia. reflexivity.
Qed.

(** Every slot of the flattened buffer holds a number: no read of the scratch
    array misses. *)
Lemma trianglesOf_no_undefined X Y :
  Forall (fun slot => slot <> None) (fm_vertices (trianglesOf X Y)).
Proof.
  rewrite trianglesOf_flat. cbn [fm_vertices].
  apply Forall_flat_map, Forall_forall. intros i Hi.
  apply Forall_flat_map, Forall_forall. intros j Hj.
  apply in_seq in Hi, Hj.
  assert (Hin : forall a b, (a <= X)%nat -> (b <= Y)%nat ->
    Forall (fun slot : option float => slot <> None)
      (vertexSlots (im_vertices (trianglesIndexOf X Y)) (cellIndex Y a b))).
  { intros a b Ha Hb. rewrite vertexSlots_in_range.
    - apply Forall_map, Forall_forall. intros; discriminate.
    - rewrite trianglesIndexOf_vertices_length. unfold cellIndex. nia. }
  unfold cellSlots, triangleA, triangleB. cbn [app flat_map].
  rewrite app_nil_r. repeat (apply Forall_app; split); apply Hin; lia.
Qed.

(** ** The catalog *)

Lemma getModels_registered :
  getModels = ["meshIndex"; "meshTriangles"; "triangleFan"; "triangleStrip"]%string.
Proof. reflexivity. Qed.

Lemma getModel_strip w h : getModel "triangleStrip" w h = generateTriangleStrip w h.
Proof. reflexivity. Qed.

(** ** The properties of the generators *)

(** C1 (as the code has it): for every width and height the triangle strip
    holds two seed vertices and two more per segment, that is
    [2 * numSegments + 2] vertices; with the 18 segments of the source this is
    38 vertices, a buffer of 228 numbers. *)
Theorem C1_strip_vertex_count (w h : float) :
  vertexCount (generateTriangleStrip w h) = (2 * numSegments + 2)%nat /\
  List.length (generateTriangleStrip w h) = (6 * (2 * numSegments + 2))%nat /\
  vertexCount (generateTriangleStrip w h) = 38%nat /\
  List.length (generateTriangleStrip w h) = 228%nat.
Proof.
  assert (Hlen : List.length (generateTriangleStrip w h) = 228%nat).
  { unfold generateTriangleStrip. rewrite triangleStripOf_length; [reflexivity|].
    unfold numSegments. lia. }
  unfold vertexCount. rewrite Hlen. repeat split.
Qed.

(** C3: at resolution [X] by [Y] the indexed mesh has [(X+1)(Y+1)] vertices and
    [6XY] indices, every index addresses a vertex of the buffer, and the
    reported triangle count is [2XY]; the mesh the source draws (10 by 5) has
    66 vertices, 300 indices and 100 triangles. *)
Theorem C3_indexed_mesh_sizes (X Y : nat) :
  let m := trianglesIndexOf X Y in
  (vertexCount (im_vertices m) = (X + 1) * (Y + 1) /\
   List.length (im_vertices m) = 6 * ((X + 1) * (Y + 1)) /\
   List.length (im_indices m) = 6 * X * Y /\
   Forall (fun k => 0 <= k < (X + 1) * (Y + 1)) (im_indices m) /\
   im_numTriangles m = 2 * X * Y)%nat /\
  (forall frame drawBorder borderColor,
     let d := trianglesIndexOf 10 5 in
     fills (generateTrianglesIndex frame drawBorder borderColor) =
       fills frame ++
       [FillTrianglesIndex (im_vertices d) (im_indices d) (im_numTriangles d)
          drawBorder borderColor] /\
     vertexCount (im_vertices d) = 66%nat /\
     List.length (im_indices d) = 300%nat /\
     im_numTriangles d = 100%nat).
Proof.
  intros m. split; [repeat split|].
  - unfold vertexCount, m. rewrite trianglesIndexOf_vertices_length.
    rewrite Nat.mul_comm. now apply Nat.div_mul.
  - apply trianglesIndexOf_vertices_length.
  - apply trianglesIndexOf_indices_length.
  - eapply Forall_impl; [|apply trianglesIndexOf_indices_bound].
    cbv beta. intros k Hk. lia.
  - unfold m. rewrite trianglesIndexOf_flat. cbn [im_numTriangles]. lia.
  - intros frame drawBorder borderColor d. split; [reflexivity|]. split; [|split].
    + unfold vertexCount, d. now rewrite trianglesIndexOf_vertices_length.
    + unfold d. now rewrite trianglesIndexOf_indices_length.
    + unfold d. now rewrite trianglesIndexOf_flat.
Qed.

(** C4 (as the code has it): in an engine whose cosine of zero is 1 and whose
    sine of zero is 0, the first vertex of [generateTriangleStrip(200, 200)]
    is at (140, 100, 0); and for every width and height the first two
    vertices are the inner and the outer ring point at the current angle of
    segment 0, in that order. *)
Theorem C4_strip_first_vertices :
  cos 0 = 1 -> sin 0 = 0 ->
  position (vertexAt (generateTriangleStrip 200 200) 0) = [140; 100; 0] /\
  (forall w h,
     let currAngle := of_nat 0 * (2 * PI / of_nat numSegments) in
     vertexAt (generateTriangleStrip w h) 0 =
       ringVertex (w / 2) (h / 2) innerRadius currAngle (0 mod 3) /\
     vertexAt (generateTriangleStrip w h) 1 =
       ringVertex (w / 2) (h / 2) outerRadius currAngle ((0 + 2) mod 3)).
Proof.
  intros Hcos Hsin.
  assert (Hfirst : forall w h,
    vertexAt (generateTriangleStrip w h) 0 =
      ringVertex (w / 2) (h / 2) innerRadius
        (of_nat 0 * (2 * PI / of_nat numSegments)) (0 mod 3) /\
    vertexAt (generateTriangleStrip w h) 1 =
      ringVertex (w / 2) (h / 2) outerRadius
        (of_nat 0 * (2 * PI / of_nat numSegments)) ((0 + 2) mod 3)).
  { intros w h. unfold generateTriangleStrip.
    apply (@triangleStripOf_vertex numSegments w h 0); unfold numSegments; lia. }
  split; [|exact Hfirst].
  rewrite (proj1 (Hfirst 200 200)). unfold ringVertex, position. cbn [firstn].
  change (of_nat 0 * (2 * PI / of_nat numSegments)) with 0.
  rewrite Hcos, Hsin. reflexivity.
Qed.

(** C5: the vertex of grid cell [(i, j)] is the record at vertex index
    [i * (y_steps + 1) + j], and the six indices that the index pass emits for
    the quad of cell [(i, j)] are triangle A = (i,j), (i,j+1), (i+1,j) followed
    by triangle B = (i,j+1), (i+1,j+1), (i+1,j); the quads follow one another
    row by row and nothing else is emitted. *)
Theorem C5_grid_addressing (X Y i j : nat) :
  let m := trianglesIndexOf X Y in
  ((i <= X)%nat -> (j <= Y)%nat ->
   vertexAt (im_vertices m) (i * (Y + 1) + j) = gridVertex X Y i j) /\
  ((i < X)%nat -> (j < Y)%nat ->
   firstn 6 (skipn (6 * (i * Y + j)) (im_indices m)) =
     [cellIndex Y i j; cellIndex Y i (j + 1); cellIndex Y (i + 1) j] ++
     [cellIndex Y i (j + 1); cellIndex Y (i + 1) (j + 1); cellIndex Y (i + 1) j]) /\
  List.length (im_indices m) = (6 * X * Y)%nat.
Proof.
  intros m. split; [|split].
  - intros Hi Hj. now apply trianglesIndexOf_vertex.
  - intros Hi Hj. now apply trianglesIndexOf_cell.
  - apply trianglesIndexOf_indices_length.
Qed.

(** C6: for every frame height the fan holds [numTriangles + 2] vertices (7
    for the 5 triangles of the source); the first is the apex
    (10, height - 10, 0) in palette colour 0 (red), and the vertex after it at
    step [i], for [i] from 0 to [numTriangles], is the rim point at angle
    [-(i / numTriangles) * PI / 2], blue (palette colour 2) for even [i] and
    green (palette colour 1) for odd [i]. *)
Theorem C6_fan_layout (numTriangles : nat) (frameHeight : float) (i : nat) :
  (i <= numTriangles)%nat ->
  vertexCount (triangleFanOf numTriangles frameHeight) = (numTriangles + 2)%nat /\
  List.length (triangleFanOf numTriangles frameHeight) = (6 * (numTriangles + 2))%nat /\
  vertexCount (triangleFanOf 5 frameHeight) = 7%nat /\
  vertexAt (triangleFanOf numTriangles frameHeight) 0 =
    [10; frameHeight - 10; 0] ++ [255; 0; 0] /\
  vertexAt (triangleFanOf numTriangles frameHeight) (i + 1) =
    (let angle := (- (of_nat i / of_nat numTriangles)) * PI / 2 in
     [10 + 150 * cos angle; (frameHeight - 10) + 150 * sin angle; 0]) ++
    (if Nat.even i then [0; 0; 255] else [0; 255; 0]) /\
  (forall frame drawBorder borderColor,
     fills (generateTriangleFan frame drawBorder borderColor) =
     fills frame ++
     [FillTriangleFan (triangleFanOf 5 (height (surface frame))) drawBorder borderColor]).
Proof.
  intros Hi.
  assert (Hlen : forall n, List.length (triangleFanOf n frameHeight) = (6 * (n + 2))%nat).
  { intros n. rewrite triangleFanOf_flat, length_app.
    rewrite (@flat_map_const_length _ _ _ 6) by (intros; apply fanRimVertex_length).
    rewrite length_seq. simpl. lia. }
  assert (Hcount : forall n, vertexCount (triangleFanOf n frameHeight) = (n + 2)%nat).
  { intros n. unfold vertexCount. rewrite Hlen, Nat.mul_comm. now apply Nat.div_mul. }
  split; [|split; [|split; [|split; [|split]]]].
  - apply Hcount.
  - apply Hlen.
  - apply Hcount.
  - rewrite triangleFanOf_flat. reflexivity.
  - rewrite triangleFanOf_flat. unfold vertexAt.
    replace (6 * (i + 1))%nat with (6 * i + 6)%nat by lia.
    rewrite <- skipn_skipn.
    change (skipn 6 ([10; frameHeight - 10; 0; 255; 0; 0] ++
                     flat_map (fanRimVertex numTriangles frameHeight)
                       (seq 0 (numTriangles + 1))))
      with (flat_map (fanRimVertex numTriangles frameHeight) (seq 0 (numTriangles + 1))).
    rewrite (@flat_map_seq_block _ (fanRimVertex numTriangles frameHeight) 6)
      by (try (intros; apply fanRimVertex_length); lia).
    reflexivity.
  - reflexivity.
Qed.

(** C7: [getModel] returns the empty array for every identifier other than
    "triangleStrip", whatever the width and height; [drawModel] with an
    identifier that is not one of the four registered names invokes no fill
    operation and leaves the surface as it was. *)
Theorem C7_unknown_model (model : string) :
  (model <> "triangleStrip"%string ->
   forall w h, getModel model w h = []) /\
  (~ In model getModels ->
   forall frame drawBorder borderColor,
     drawModel model frame drawBorder borderColor = frame /\
     fills (drawModel model frame drawBorder borderColor) = fills frame /\
     surface (drawModel model frame drawBorder borderColor) = surface frame).
Proof.
  split.
  - intros Hne w h. unfold getModel.
    apply String.eqb_neq in Hne. now rewrite Hne.
  - intros Hnot frame drawBorder borderColor.
    assert (Heq : drawModel model frame drawBorder borderColor = frame).
    { unfold drawModel. rewrite getModels_registered in Hnot.
      destruct (String.eqb_spec model "triangleStrip") as [->|_];
        [exfalso; apply Hnot; simpl; tauto|].
      destruct (String.eqb_spec model "triangleFan") as [->|_];
        [exfalso; apply Hnot; simpl; tauto|].
      destruct (String.eqb_spec model "meshIndex") as [->|_];
        [exfalso; apply Hnot; simpl; tauto|].
      destruct (String.eqb_spec model "meshTriangles") as [->|_];
        [exfalso; apply Hnot; simpl; tauto|].
      reflexivity. }
    now rewrite Heq.
Qed.

(** C8 (as the code has it): the flattened mesh stores three vertex records
    per triangle, so the number of vertices is 3 times the reported triangle
    count (18 numbers per triangle); the mesh the source draws (1 by 1) has 6
    vertices for 2 triangles. *)
Theorem C8_flat_mesh_vertex_count (X Y : nat) :
  let m := trianglesOf X Y in
  (vertexCount (fm_vertices m) = 3 * fm_numTriangles m /\
   List.length (fm_vertices m) = 18 * fm_numTriangles m)%nat /\
  (forall frame drawBorder borderColor,
     let d := trianglesOf 1 1 in
     fills (generateTriangles frame drawBorder borderColor) =
       fills frame ++ [FillTriangles (fm_vertices d) (fm_numTriangles d)
                         drawBorder borderColor] /\
     vertexCount (fm_vertices d) = 6%nat /\ fm_numTriangles d = 2%nat).
Proof.
  intros m. split; [split|].
  - apply trianglesOf_vertexCount.
  - unfold m. rewrite trianglesOf_length, trianglesOf_numTriangles. lia.
  - intros frame drawBorder borderColor d. split; [reflexivity|]. split.
    + unfold d. now rewrite trianglesOf_vertexCount, trianglesOf_numTriangles.
    + unfold d. now rewrite trianglesOf_numTriangles.
Qed.

(** C2: the flattened mesh of the source (1 by 1) reports as many triangles
    as the indexed mesh at the same resolution, and the three vertex records
    of its [k]-th triangle are, as a multiset, the position and colour records
    of the three vertices that the indices of the [k]-th indexed triangle
    refer to. *)
Theorem C2_flattened_matches_indexed (k : nat) :
  let fm := trianglesOf 1 1 in
  let im := trianglesIndexOf 1 1 in
  (k < fm_numTriangles fm)%nat ->
  fm_numTriangles fm = im_numTriangles im /\
  vertexCount (fm_vertices fm) = (3 * fm_numTriangles fm)%nat /\
  Permutation
    (flatTriangle (fm_vertices fm) k)
    (map (map Some) (indexedTriangle (im_vertices im) (im_indices im) k)).
Proof.
  intros fm im Hk.
  assert (Hnum : fm_numTriangles fm = 2%nat) by (unfold fm; now rewrite trianglesOf_flat).
  rewrite Hnum in Hk. split; [|split].
  - rewrite Hnum. unfold im. now rewrite trianglesIndexOf_flat.
  - apply trianglesOf_vertexCount.
  - destruct (@trianglesOf_cell 1 1 0 0) as [H0 H1]; try lia.
    destruct k as [|[|k]]; [| |lia].
    + unfold fm, im. cbn [Nat.mul Nat.add] in H0. rewrite H0. apply Permutation_refl.
    + unfold fm, im. cbn [Nat.mul Nat.add] in H1. rewrite H1. apply Permutation_refl.
Qed.

(** ** More about the triangle strip *)

Lemma palette_values : palette = [[255; 0; 0]; [0; 255; 0]; [0; 0; 255]].
Proof. reflexivity. Qed.

Lemma palette_NoDup : NoDup palette.
Proof.
  apply (NoDup_map_inv
    (fun v : list float =>
       match v with
       | x :: y :: _ => if x =? 255 then 0%nat else if y =? 255 then 1%nat else 2%nat
       | _ => 3%nat
       end)).
  vm_compute. repeat constructor; simpl; intuition discriminate.
Qed.

Lemma ringVertex_palette x y radius angle j :
  (j < 3)%nat ->
  ringVertex x y radius angle j =
  [x + radius * cos angle; y + radius * sin angle; 0] ++ nth j palette [].
Proof.
  intros Hj. destruct j as [|[|[|j]]]; try lia; reflexivity.
Qed.

(** The strip of the source, vertex by vertex. *)
Lemma generateTriangleStrip_vertex w h k :
  (k <= numSegments)%nat ->
  let angle := of_nat k * (2 * PI / of_nat numSegments) in
  vertexAt (generateTriangleStrip w h) (2 * k) =
    [w / 2 + 40 * cos angle; h / 2 + 40 * sin angle; 0] ++ nth (k mod 3) palette [] /\
  vertexAt (generateTriangleStrip w h) (2 * k + 1) =
    [w / 2 + 80 * cos angle; h / 2 + 80 * sin angle; 0] ++ nth ((k + 2) mod 3) palette [].
Proof.
  intros Hk angle.
  destruct (@triangleStripOf_vertex numSegments w h k) as [He Ho];
    [unfold numSegments; lia | assumption |].
  unfold generateTriangleStrip. rewrite He, Ho.
  rewrite !ringVertex_palette by (apply Nat.mod_upper_bound; discriminate).
  split; reflexivity.
Qed.

Lemma generateTriangleStrip_colour w h k :
  (k <= numSegments)%nat ->
  vertexColour (vertexAt (generateTriangleStrip w h) (2 * k)) = nth (k mod 3) palette [] /\
  vertexColour (vertexAt (generateTriangleStrip w h) (2 * k + 1)) =
    nth ((k + 2) mod 3) palette [].
Proof.
  intros Hk. destruct (generateTriangleStrip_vertex w h Hk) as [He Ho].
  rewrite He, Ho. split; reflexivity.
Qed.

(** Any arrangement of three things is a permutation of them. *)
Lemma perm3 {A : Type} (a b c : A) :
  Permutation [a; c; b] [a; b; c] /\ Permutation [b; a; c] [a; b; c] /\
  Permutation [b; c; a] [a; b; c] /\ Permutation [c; a; b] [a; b; c] /\
  Permutation [c; b; a] [a; b; c].
Proof.
  assert (Hacb : Permutation [a; c; b] [a; b; c]) by (apply perm_skip, perm_swap).
  assert (Hbac : Permutation [b; a; c] [a; b; c]) by apply perm_swap.
  repeat split; try assumption.
  - apply perm_trans with [b; a; c]; [apply perm_skip, perm_swap | assumption].
  - apply perm_trans with [a; c; b]; [apply perm_swap | assumption].
  - apply perm_trans with [b; c; a]; [apply perm_swap|].
    apply perm_trans with [b; a; c]; [apply perm_skip, perm_swap | assumption].
Qed.

Lemma mod3_next (k d : nat) : ((k + d) mod 3 = (k mod 3 + d) mod 3)%nat.
Proof. now rewrite Nat.Div0.add_mod_idemp_l. Qed.

(** X1: the whole strip, vertex by vertex.  For every step [k] from 0 to the
    number of segments, the vertex at position [2k] is the point of the inner
    ring (radius 40) at angle [k * angleStep] in palette colour [k mod 3], and
    the vertex at position [2k + 1] is the point of the outer ring (radius 80)
    at the same angle in palette colour [(k + 2) mod 3]. *)
Theorem X1_strip_layout (w h : float) (k : nat) :
  (k <= numSegments)%nat ->
  let angle := of_nat k * (2 * PI / of_nat numSegments) in
  vertexAt (generateTriangleStrip w h) (2 * k) =
    [w / 2 + 40 * cos angle; h / 2 + 40 * sin angle; 0] ++ nth (k mod 3) palette [] /\
  vertexAt (generateTriangleStrip w h) (2 * k + 1) =
    [w / 2 + 80 * cos angle; h / 2 + 80 * sin angle; 0] ++ nth ((k + 2) mod 3) palette [].
Proof. intros Hk. now apply generateTriangleStrip_vertex. Qed.

(** X2: every triangle of the strip shows all three palette colours.  The
    triangle number [t] of a strip is made of the vertices at positions [t],
    [t + 1] and [t + 2]; for each of the [2 * numSegments] triangles their
    colours are red, green and blue in some order, hence pairwise different. *)
Theorem X2_strip_triangles_three_colours (w h : float) (t : nat) :
  (t < 2 * numSegments)%nat ->
  let colourOf q := vertexColour (vertexAt (generateTriangleStrip w h) q) in
  Permutation [colourOf t; colourOf (t + 1)%nat; colourOf (t + 2)%nat]
              [[255; 0; 0]; [0; 255; 0]; [0; 0; 255]] /\
  NoDup [colourOf t; colourOf (t + 1)%nat; colourOf (t + 2)%nat].
Proof.
  intros Ht colourOf.
  assert (Hperm : Permutation [colourOf t; colourOf (t + 1)%nat; colourOf (t + 2)%nat] palette).
  { pose proof (@perm3 (list float) [255; 0; 0] [0; 255; 0] [0; 0; 255])
      as (P1 & P2 & P3 & P4 & P5).
    unfold colourOf.
    destruct (Nat.Even_or_Odd t) as [[k ->]|[k ->]].
    - destruct (@generateTriangleStrip_colour w h k) as [E0 E1]; [lia|].
      destruct (@generateTriangleStrip_colour w h (k + 1)) as [E2 _]; [lia|].
      replace (2 * k + 2)%nat with (2 * (k + 1))%nat by lia.
      rewrite E0, E1, E2. rewrite (mod3_next k 2), (mod3_next k 1).
      pose proof (Nat.mod_upper_bound k 3) as Hm.
      destruct (k mod 3)%nat as [|[|[|r]]]; try lia; rewrite palette_values;
        cbn [Nat.add Nat.modulo Nat.divmod fst snd Nat.sub nth];
        first [apply Permutation_refl | assumption].
    - destruct (@generateTriangleStrip_colour w h k) as [_ E1]; [lia|].
      destruct (@generateTriangleStrip_colour w h (k + 1)) as [E2 E3]; [lia|].
      replace (2 * k + 1 + 1)%nat with (2 * (k + 1))%nat by lia.
      replace (2 * k + 1 + 2)%nat with (2 * (k + 1) + 1)%nat by lia.
      rewrite E1, E2, E3.
      replace (k + 1 + 2)%nat with (k + 3)%nat by lia.
      rewrite (mod3_next k 2), (mod3_next k 1), (mod3_next k 3).
      pose proof (Nat.mod_upper_bound k 3) as Hm.
      destruct (k mod 3)%nat as [|[|[|r]]]; try lia; rewrite palette_values;
        cbn [Nat.add Nat.modulo Nat.divmod fst snd Nat.sub nth];
        first [apply Permutation_refl | assumption]. }
  split.
  - now rewrite <- palette_values.
  - apply (Permutation_NoDup (Permutation_sym Hperm)), palette_NoDup.
Qed.

(** X3: the seam of the ring.  The last two vertices of the strip (positions
    36 and 37) are computed at the angle [18 * angleStep], which in binary64
    is exactly [2 * Math.PI]; they are computed afresh, not copied from the
    first two, and they carry the colours of the first two (red inside, blue
    outside). *)
Theorem X3_strip_seam (w h : float) :
  of_nat numSegments * (2 * PI / of_nat numSegments) = 2 * PI /\
  vertexAt (generateTriangleStrip w h) 36 =
    [w / 2 + 40 * cos (2 * PI); h / 2 + 40 * sin (2 * PI); 0; 255; 0; 0] /\
  vertexAt (generateTriangleStrip w h) 37 =
    [w / 2 + 80 * cos (2 * PI); h / 2 + 80 * sin (2 * PI); 0; 0; 0; 255] /\
  vertexColour (vertexAt (generateTriangleStrip w h) 36) =
    vertexColour (vertexAt (generateTriangleStrip w h) 0) /\
  vertexColour (vertexAt (generateTriangleStrip w h) 37) =
    vertexColour (vertexAt (generateTriangleStrip w h) 1).
Proof.
  destruct (@generateTriangleStrip_vertex w h 18) as [E36 E37]; [unfold numSegments; lia|].
  destruct (@generateTriangleStrip_vertex w h 0) as [E0 E1]; [unfold numSegments; lia|].
  change (2 * 18)%nat with 36%nat in E36. change (2 * 18 + 1)%nat with 37%nat in E37.
  change (2 * 0)%nat with 0%nat in E0. change (2 * 0 + 1)%nat with 1%nat in E1.
  split; [reflexivity|].
  rewrite E36, E37, E0, E1. repeat split.
Qed.

(** ** More about the catalog *)

(** Case analysis of a model name against the four registered ones. *)
Lemma model_cases (model : string) :
  model = "triangleStrip"%string \/ model = "triangleFan"%string \/
  model = "meshIndex"%string \/ model = "meshTriangles"%string \/
  (String.eqb model "triangleStrip" = false /\ String.eqb model "triangleFan" = false /\
   String.eqb model "meshIndex" = false /\ String.eqb model "meshTriangles" = false).
Proof.
  destruct (String.eqb_spec model "triangleStrip"); [tauto|].
  destruct (String.eqb_spec model "triangleFan"); [tauto|].
  destruct (String.eqb_spec model "meshIndex"); [tauto|].
  destruct (String.eqb_spec model "meshTriangles"); tauto.
Qed.

Lemma modelTesters_entries :
  modelTesters =
  [("meshIndex"%string, generateTrianglesIndex_value);
   ("meshTriangles"%string, generateTriangles_value);
   ("triangleFan"%string, generateTriangleFan_value);
   ("triangleStrip"%string, renderTriangleStrip_value)].
Proof. reflexivity. Qed.

(** X4: [drawModel] invokes exactly one fill operation for a registered model
    name and none for any other name; the fill operations invoked before it
    stay in the log, in their order. *)
Theorem X4_drawModel_fills_once (model : string) (frame : Canvas) (drawBorder : bool)
  (borderColor : Color.t) :
  exists calls,
    fills (drawModel model frame drawBorder borderColor) = fills frame ++ calls /\
    List.length calls =
      (if existsb (String.eqb model) getModels then 1 else 0)%nat.
Proof.
  destruct (model_cases model) as [->|[->|[->|[->|(H1 & H2 & H3 & H4)]]]].
  - eexists. split; reflexivity.
  - eexists. split; reflexivity.
  - eexists. split; reflexivity.
  - eexists. split; reflexivity.
  - exists []. unfold drawModel. rewrite H1, H2, H3, H4, app_nil_r.
    split; [reflexivity|].
    rewrite getModels_registered. cbn [existsb]. now rewrite H1, H2, H3, H4.
Qed.

(** X5: the draw path and the query path agree on the strip.  Drawing
    "triangleStrip" hands to [fillTriangleStrip], with the border options
    unchanged, exactly the buffer that [getModel] returns for the width and
    height of the frame: 38 vertices. *)
Theorem X5_strip_draw_uses_query (frame : Canvas) (drawBorder : bool)
  (borderColor : Color.t) :
  let vertices :=
    getModel "triangleStrip" (width (surface frame)) (height (surface frame)) in
  fills (drawModel "triangleStrip" frame drawBorder borderColor) =
    fills frame ++ [FillTriangleStrip vertices drawBorder borderColor] /\
  surface (drawModel "triangleStrip" frame drawBorder borderColor) =
    fillTriangleStrip vertices (surface frame) drawBorder borderColor /\
  vertexCount vertices = 38%nat.
Proof.
  intros vertices. split; [reflexivity|]. split; [reflexivity|].
  unfold vertices, vertexCount. rewrite getModel_strip.
  unfold generateTriangleStrip. rewrite triangleStripOf_length; [reflexivity|].
  unfold numSegments. lia.
Qed.

(** X6: the registry and the dispatcher agree, up to the receiver.  The names
    under which the constructor registers a function in [modelTesters] are the
    names that [getModels] lists, without repetition.  For each of them
    [drawModel] does what the registered function does when it is called on
    the manager.  Called as the registry stores it, with no receiver, the
    functions for "meshIndex", "meshTriangles" and "triangleFan" still do the
    same, and the one for "triangleStrip" throws a [TypeError] before any
    fill, leaving the frame as it was.  For a name with no entry [drawModel]
    does nothing. *)
Theorem X6_registry_matches_dispatch (model : string) :
  NoDup getModels /\
  (In model getModels <-> map_get modelTesters model <> None) /\
  match map_get modelTesters model with
  | Some tester =>
      forall frame drawBorder borderColor,
        tester ThisManager frame drawBorder borderColor =
          Returned (drawModel model frame drawBorder borderColor) /\
        tester ThisUndefined frame drawBorder borderColor =
          (if String.eqb model "triangleStrip" then ThrewTypeError frame
           else Returned (drawModel model frame drawBorder borderColor))
  | None =>
      forall frame drawBorder borderColor,
        drawModel model frame drawBorder borderColor = frame
  end.
Proof.
  split.
  { rewrite getModels_registered.
    repeat constructor; simpl; intuition discriminate. }
  rewrite getModels_registered.
  destruct (model_cases model) as [->|[->|[->|[->|(H1 & H2 & H3 & H4)]]]].
  - split; [split; [intros _; simpl; discriminate | simpl; tauto]|].
    simpl map_get. cbv iota. intros; split; reflexivity.
  - split; [split; [intros _; simpl; discriminate | simpl; tauto]|].
    simpl map_get. cbv iota. intros; split; reflexivity.
  - split; [split; [intros _; simpl; discriminate | simpl; tauto]|].
    simpl map_get. cbv iota. intros; split; reflexivity.
  - split; [split; [intros _; simpl; discriminate | simpl; tauto]|].
    simpl map_get. cbv iota. intros; split; reflexivity.
  - assert (Hget : map_get modelTesters model = None).
    { rewrite modelTesters_entries. cbn [map_get].
      rewrite (String.eqb_sym "meshIndex" model), (String.eqb_sym "meshTriangles" model),
        (String.eqb_sym "triangleFan" model), (String.eqb_sym "triangleStrip" model).
      now rewrite H1, H2, H3, H4. }
    rewrite Hget. split.
    + split; [|congruence].
      apply String.eqb_neq in H1, H2, H3, H4. simpl. intuition congruence.
    + intros frame drawBorder borderColor. unfold drawModel.
      now rewrite H1, H2, H3, H4.
Qed.

(** ** More about the flattened mesh *)

Lemma flat_map_flat_map {A B C : Type} (f : B -> list C) (g : A -> list B) (l : list A) :
  flat_map f (flat_map g l) = flat_map (fun a => flat_map f (g a)) l.
Proof.
  induction l as [|a l IH]; [reflexivity|].
  cbn [flat_map]. now rewrite flat_map_app, IH.
Qed.

Lemma map_flat_map {A B C : Type} (f : B -> C) (g : A -> list B) (l : list A) :
  map f (flat_map g l) = flat_map (fun a => map f (g a)) l.
Proof.
  induction l as [|a l IH]; [reflexivity|].
  cbn [flat_map]. now rewrite map_app, IH.
Qed.

Lemma flat_map_ext_in {A B : Type} (f g : A -> list B) (l : list A) :
  (forall a, In a l -> f a = g a) -> flat_map f l = flat_map g l.
Proof.
  induction l as [|a l IH]; intros H; [reflexivity|].
  cbn [flat_map]. rewrite (H a) by (left; reflexivity).
  rewrite IH; [reflexivity|]. intros b Hb. apply H. now right.
Qed.

Lemma get_out_of_range {A : Type} (l : list A) (k : nat) :
  (List.length l <= k)%nat -> get l k = None.
Proof. intros H. now apply nth_error_None. Qed.

(** X7: [pushVertex] always appends exactly six slots and keeps what the
    buffer held.  When vertex [index] lies inside the scratch array the six
    slots are its record; when the scratch array ends at or before that
    vertex, all six reads miss and six [undefined] are appended, without any
    error. *)
Theorem X7_pushVertex_slots (tmpVertices : list float) (index : nat)
  (vertices : list (option float)) :
  List.length (pushVertex tmpVertices index vertices) = (List.length vertices + 6)%nat /\
  firstn (List.length vertices) (pushVertex tmpVertices index vertices) = vertices /\
  ((6 * index + 6 <= List.length tmpVertices)%nat ->
   pushVertex tmpVertices index vertices =
     vertices ++ map Some (vertexAt tmpVertices index)) /\
  ((List.length tmpVertices <= 6 * index)%nat ->
   pushVertex tmpVertices index vertices = vertices ++ repeat None 6).
Proof.
  rewrite pushVertex_push. split; [|split; [|split]].
  - rewrite length_app. reflexivity.
  - rewrite firstn_app, firstn_all, Nat.sub_diag. cbn [firstn]. apply app_nil_r.
  - intros Hin. now rewrite vertexSlots_in_range.
  - intros Hout. unfold vertexSlots.
    rewrite !get_out_of_range by lia. reflexivity.
Qed.

(** X8: the expansion law, for every grid resolution.  The buffer of the
    flattened mesh is the vertex buffer of the indexed mesh read through its
    index buffer: for each index, in order, the six-number record of the
    vertex it refers to.  No read of the scratch array misses, so no slot
    holds [undefined]; and both generators report the same number of
    triangles. *)
Theorem X8_flattened_is_expanded_indexed (X Y : nat) :
  let im := trianglesIndexOf X Y in
  fm_vertices (trianglesOf X Y) =
    map Some (flat_map (vertexAt (im_vertices im)) (im_indices im)) /\
  Forall (fun slot => slot <> None) (fm_vertices (trianglesOf X Y)) /\
  fm_numTriangles (trianglesOf X Y) = im_numTriangles im.
Proof.
  intros im. split; [|split; [apply trianglesOf_no_undefined|]].
  - rewrite trianglesOf_flat. cbn [fm_vertices]. fold im.
    set (tmp := im_vertices im).
    assert (Hidx : im_indices im =
      flat_map (fun i => flat_map (fun j => triangleA Y i j ++ triangleB Y i j) (seq 0 Y))
        (seq 0 X)) by (unfold im; now rewrite trianglesIndexOf_flat).
    rewrite Hidx, flat_map_flat_map, map_flat_map.
    apply flat_map_ext_in. intros i Hi.
    rewrite flat_map_flat_map, map_flat_map.
    apply flat_map_ext_in. intros j Hj.
    apply in_seq in Hi, Hj.
    unfold cellSlots. rewrite map_flat_map.
    apply flat_map_ext_in. intros index Hindex.
    apply vertexSlots_in_range.
    unfold tmp, im. rewrite trianglesIndexOf_vertices_length.
    unfold triangleA, triangleB, cellIndex in Hindex. cbn [app In] in Hindex.
    repeat (destruct Hindex as [<-|Hindex]; [nia|]). contradiction.
  - rewrite trianglesOf_numTriangles. unfold im. now rewrite trianglesIndexOf_flat.
Qed.

(** ** More about the indexed mesh *)

(** The index triples of the two triangles of cell [(i, j)]. *)
Lemma trianglesIndexOf_triangles X Y i j :
  (i < X)%nat -> (j < Y)%nat ->
  let indices := im_indices (trianglesIndexOf X Y) in
  firstn 3 (skipn (3 * (2 * (i * Y + j))) indices) = triangleA Y i j /\
  firstn 3 (skipn (3 * (2 * (i * Y + j) + 1)) indices) = triangleB Y i j.
Proof.
  intros Hi Hj indices.
  pose proof (@trianglesIndexOf_cell X Y i j Hi Hj) as Hcell. fold indices in Hcell.
  split.
  - replace (3 * (2 * (i * Y + j)))%nat with (6 * (i * Y + j) + 0)%nat by lia.
    rewrite <- (@firstn_skipn_window _ indices 3 0 6) by lia.
    rewrite Hcell. reflexivity.
  - replace (3 * (2 * (i * Y + j) + 1))%nat with (6 * (i * Y + j) + 3)%nat by lia.
    rewrite <- (@firstn_skipn_window _ indices 3 3 6) by lia.
    rewrite Hcell. reflexivity.
Qed.

(** Triangle number [t] belongs to a cell of the grid. *)
Lemma triangle_cell (X Y t : nat) :
  (t < 2 * X * Y)%nat ->
  exists i j hf, (i < X)%nat /\ (j < Y)%nat /\ (hf < 2)%nat /\
                 t = (2 * (i * Y + j) + hf)%nat.
Proof.
  intros Ht.
  assert (HY : Y <> 0%nat) by (intros ->; lia).
  exists ((t / 2) / Y)%nat, ((t / 2) mod Y)%nat, (t mod 2)%nat.
  pose proof (Nat.div_mod_eq t 2) as Ht2.
  pose proof (Nat.mod_upper_bound t 2) as Hh.
  pose proof (Nat.div_mod_eq (t / 2) Y) as Hc.
  pose proof (Nat.mod_upper_bound (t / 2) Y HY) as Hj.
  assert (Hclt : (t / 2 < X * Y)%nat) by (apply Nat.Div0.div_lt_upper_bound; lia).
  repeat split.
  - apply Nat.Div0.div_lt_upper_bound. lia.
  - assumption.
  - lia.
  - rewrite (Nat.mul_comm _ Y), <- Hc. lia.
Qed.

(** X9: no triangle of the indexed mesh is degenerate in its indices.  For
    every grid resolution and every triangle number [t] below the reported
    triangle count, the index buffer holds three indices for it and they are
    pairwise different. *)
Theorem X9_indexed_triangles_distinct (X Y t : nat) :
  (t < im_numTriangles (trianglesIndexOf X Y))%nat ->
  let triangle := firstn 3 (skipn (3 * t) (im_indices (trianglesIndexOf X Y))) in
  List.length triangle = 3%nat /\ NoDup triangle.
Proof.
  intros Ht triangle.
  assert (Hnum : im_numTriangles (trianglesIndexOf X Y) = (2 * Y * X)%nat)
    by now rewrite trianglesIndexOf_flat.
  rewrite Hnum in Ht.
  destruct (@triangle_cell X Y t) as (i & j & hf & Hi & Hj & Hhf & ->); [lia|].
  destruct (@trianglesIndexOf_triangles X Y i j Hi Hj) as [HA HB].
  assert (Hcase : triangle = triangleA Y i j \/ triangle = triangleB Y i j).
  { unfold triangle. destruct hf as [|[|hf]]; [left|right|lia].
    - now rewrite Nat.add_0_r.
    - assumption. }
  destruct Hcase as [-> | ->]; unfold triangleA, triangleB, cellIndex;
    (split; [reflexivity|]);
    repeat constructor; cbn [In]; intros H;
    repeat (destruct H as [H|H]; [nia|]); contradiction.
Qed.

(** X10: no vertex of the grid is left out.  With at least one step in each
    direction, every vertex index of the vertex buffer occurs in the index
    buffer, so every generated vertex is a corner of some triangle. *)
Theorem X10_indexed_mesh_uses_every_vertex (X Y v : nat) :
  (0 < X)%nat -> (0 < Y)%nat ->
  (v < vertexCount (im_vertices (trianglesIndexOf X Y)))%nat ->
  In v (im_indices (trianglesIndexOf X Y)).
Proof.
  intros HX HY Hv.
  assert (Hcount : vertexCount (im_vertices (trianglesIndexOf X Y)) = ((X + 1) * (Y + 1))%nat).
  { unfold vertexCount. rewrite trianglesIndexOf_vertices_length, Nat.mul_comm.
    now apply Nat.div_mul. }
  rewrite Hcount in Hv.
  rewrite trianglesIndexOf_flat. cbn [im_indices].
  destruct X as [|X']; [lia|]. destruct Y as [|Y']; [lia|].
  pose proof (Nat.div_mod_eq v (S Y' + 1)) as Hdm.
  pose proof (Nat.mod_upper_bound v (S Y' + 1)) as Hj.
  assert (Hi : (v / (S Y' + 1) < S X' + 1)%nat)
    by (apply Nat.Div0.div_lt_upper_bound; lia).
  set (i := (v / (S Y' + 1))%nat) in *. set (j := (v mod (S Y' + 1))%nat) in *.
  assert (Hjlt : (j < S Y' + 1)%nat) by (apply Hj; lia).
  assert (Hveq : v = cellIndex (S Y') i j) by (unfold cellIndex; lia).
  assert (Hcorner : forall i' j', (i' < S X')%nat -> (j' < S Y')%nat ->
    In v (triangleA (S Y') i' j' ++ triangleB (S Y') i' j') ->
    In v (flat_map
            (fun i0 => flat_map
               (fun j0 => triangleA (S Y') i0 j0 ++ triangleB (S Y') i0 j0)
               (seq 0 (S Y')))
            (seq 0 (S X')))).
  { intros i' j' Hi' Hj' Hin.
    apply in_flat_map. exists i'. split; [apply in_seq; lia|].
    apply in_flat_map. exists j'. split; [apply in_seq; lia|]. exact Hin. }
  destruct (Nat.lt_ge_cases i (S X')) as [Hix|Hix];
    destruct (Nat.lt_ge_cases j (S Y')) as [Hjy|Hjy].
  - apply (Hcorner i j Hix Hjy). rewrite Hveq. cbn [triangleA app In]. tauto.
  - apply (Hcorner i Y' Hix); [lia|].
    replace j with (Y' + 1)%nat in Hveq by lia. rewrite Hveq.
    cbn [triangleA app In]. tauto.
  - apply (Hcorner X' j); [lia|assumption|].
    replace i with (X' + 1)%nat in Hveq by lia. rewrite Hveq.
    cbn [triangleA app In]. tauto.
  - apply (Hcorner X' Y'); [lia|lia|].
    replace i with (X' + 1)%nat in Hveq by lia.
    replace j with (Y' + 1)%nat in Hveq by lia. rewrite Hveq.
    unfold triangleA, triangleB. cbn [app In]. tauto.
Qed.

(** ** Where the meshes lie *)

Lemma mesh_x (i : nat) :
  (i <= 10)%nat -> 10 + of_nat i * (180 / of_nat 10) = of_nat (10 + 18 * i).
Proof.
  intros Hi. do 11 (destruct i as [|i]; [reflexivity|]). lia.
Qed.

Lemma mesh_y (j : nat) :
  (j <= 5)%nat -> 10 + of_nat j * (100 / of_nat 5) = of_nat (10 + 20 * j).
Proof.
  intros Hj. do 6 (destruct j as [|j]; [reflexivity|]). lia.
Qed.

(** X11: the indexed mesh that the source draws (10 by 5 steps) is placed on
    whole pixels, whatever the frame: the vertex of cell [(i, j)] is at
    exactly (10 + 18 i, 10 + 20 j, 0), so the mesh covers the rectangle from
    (10, 10) to (190, 110). *)
Theorem X11_indexed_mesh_positions (i j : nat) :
  (i <= 10)%nat -> (j <= 5)%nat ->
  position (vertexAt (im_vertices (trianglesIndexOf 10 5)) (i * 6 + j)) =
    [of_nat (10 + 18 * i); of_nat (10 + 20 * j); 0].
Proof.
  intros Hi Hj.
  change (i * 6 + j)%nat with (cellIndex 5 i j).
  rewrite trianglesIndexOf_vertex by assumption.
  unfold gridVertex, position. cbn [firstn].
  now rewrite mesh_x, mesh_y.
Qed.

(** ** More about the triangle fan *)

Lemma triangleFanOf_vertex n h i :
  (i <= n)%nat ->
  vertexAt (triangleFanOf n h) 0 = [10; h - 10; 0; 255; 0; 0] /\
  vertexAt (triangleFanOf n h) (i + 1) = fanRimVertex n h i.
Proof.
  intros Hi. rewrite triangleFanOf_flat. split; [reflexivity|].
  unfold vertexAt.
  replace (6 * (i + 1))%nat with (6 * i + 6)%nat by lia.
  rewrite <- skipn_skipn.
  change (skipn 6 ([10; h - 10; 0; 255; 0; 0] ++
                   flat_map (fanRimVertex n h) (seq 0 (n + 1))))
    with (flat_map (fanRimVertex n h) (seq 0 (n + 1))).
  apply flat_map_seq_block; [intros; apply fanRimVertex_length | lia].
Qed.

(** X12: every triangle of the fan shows all three palette colours.  The
    triangle number [i] of a fan is made of the apex (position 0) and the rim
    vertices at positions [i + 1] and [i + 2]; the apex is red and the two rim
    vertices are one blue and one green, for every number of triangles and
    every frame height. *)
Theorem X12_fan_triangles_three_colours (numTriangles : nat) (frameHeight : float)
  (i : nat) :
  (i < numTriangles)%nat ->
  let colourOf q := vertexColour (vertexAt (triangleFanOf numTriangles frameHeight) q) in
  colourOf 0%nat = [255; 0; 0] /\
  Permutation [colourOf 0%nat; colourOf (i + 1)%nat; colourOf (i + 2)%nat]
              [[255; 0; 0]; [0; 255; 0]; [0; 0; 255]] /\
  NoDup [colourOf 0%nat; colourOf (i + 1)%nat; colourOf (i + 2)%nat].
Proof.
  intros Hi colourOf.
  destruct (@triangleFanOf_vertex numTriangles frameHeight i) as [E0 E1]; [lia|].
  destruct (@triangleFanOf_vertex numTriangles frameHeight (i + 1)) as [_ E2]; [lia|].
  replace (i + 1 + 1)%nat with (i + 2)%nat in E2 by lia.
  assert (Hperm : Permutation [colourOf 0%nat; colourOf (i + 1)%nat; colourOf (i + 2)%nat]
                              palette).
  { unfold colourOf. rewrite E0, E1, E2. unfold fanRimVertex.
    replace (i + 1)%nat with (S i) by lia. rewrite Nat.even_succ, <- Nat.negb_even.
    destruct (Nat.even i); cbn [negb]; rewrite palette_values.
    - apply perm_skip, perm_swap.
    - apply Permutation_refl. }
  split; [|split].
  - unfold colourOf. now rewrite E0.
  - now rewrite <- palette_values.
  - apply (Permutation_NoDup (Permutation_sym Hperm)), palette_NoDup.
Qed.

(** ** No validation of the frame size *)

(** In binary64, NaN absorbs every sum. *)
Lemma nan_add (y : float) : nan + y = nan.
Proof.
  apply Prim2SF_inj. rewrite add_spec.
  change (Prim2SF nan) with SpecFloat.S754_nan. reflexivity.
Qed.

(** X13: the strip generator does not validate its arguments.  For a width
    that is NaN it still returns its 38 vertices, and the x coordinate of
    every one of them is NaN, whatever the engine's cosine returns; the y
    coordinate, the z coordinate and the colour are those of an ordinary
    frame of the same height. *)
Theorem X13_strip_nan_width (h : float) (k : nat) :
  (k <= numSegments)%nat ->
  let angle := of_nat k * (2 * PI / of_nat numSegments) in
  vertexCount (generateTriangleStrip nan h) = 38%nat /\
  vertexAt (generateTriangleStrip nan h) (2 * k) =
    [nan; h / 2 + 40 * sin angle; 0] ++ nth (k mod 3) palette [] /\
  vertexAt (generateTriangleStrip nan h) (2 * k + 1) =
    [nan; h / 2 + 80 * sin angle; 0] ++ nth ((k + 2) mod 3) palette [].
Proof.
  intros Hk angle.
  destruct (@generateTriangleStrip_vertex nan h k Hk) as [He Ho].
  fold angle in He, Ho.
  change (nan / 2) with nan in He, Ho. rewrite !nan_add in He, Ho.
  split; [|split; assumption].
  unfold vertexCount, generateTriangleStrip.
  rewrite triangleStripOf_length; [reflexivity | unfold numSegments; lia].
Qed.

(** In binary64, adding the negative zero changes nothing. *)
Lemma add_neg_zero (y : float) : y + (-0) = y.
Proof.
  apply Prim2SF_inj. rewrite add_spec.
  change (Prim2SF (-0)) with (SpecFloat.S754_zero true).
  destruct (Prim2SF y) as [[|]| [|] | |[|] m e]; reflexivity.
Qed.

(** X14: where the fan starts.  In an engine whose cosine of [-0] is 1 and
    whose sine of [-0] is [-0], as ECMAScript requires, the first rim vertex
    of the fan lies exactly 150 to the right of the apex (10, height - 10), at
    the height of the apex, for every frame height. *)
Theorem X14_fan_first_rim_vertex (frameHeight : float) :
  cos (-0) = 1 -> sin (-0) = (-0) ->
  position (vertexAt (triangleFanOf 5 frameHeight) 0) = [10; frameHeight - 10; 0] /\
  position (vertexAt (triangleFanOf 5 frameHeight) 1) = [160; frameHeight - 10; 0].
Proof.
  intros Hcos Hsin.
  destruct (@triangleFanOf_vertex 5 frameHeight 0) as [E0 E1]; [lia|].
  change (0 + 1)%nat with 1%nat in E1. rewrite E0, E1.
  split; [reflexivity|].
  unfold fanRimVertex, position. cbn [firstn app].
  change (- (of_nat 0 / of_nat 5) * PI / 2) with (-0).
  rewrite Hcos, Hsin.
  change (150 * -0) with (-0). rewrite add_neg_zero. reflexivity.
Qed.

(** ** How far the strip reaches *)

(** The coordinates of the strip are sums [x + radius * c] computed in
    binary64.  That they stay near the centre rests on two facts about
    rounding to nearest: it is monotone, and it leaves a representable number
    where it is.  Both are proved here from the specification of the binary64
    operations ([SpecFloat]), on the integer values of the numbers. *)

Section Rounding.

Local Open Scope Z_scope.
Local Unset Implicit Arguments.

Lemma digits_ge_1 m : 1 <= digits m.
Proof. unfold digits. lia. Qed.

(** A mantissa of [d] digits lies between [2^(d-1)] and [2^d]. *)
Lemma digits_bounds m : 2 ^ (digits m - 1) <= Zpos m < 2 ^ digits m.
Proof.
  unfold digits. induction m as [m IH|m IH|]; cbn [digits2_pos].
  - rewrite Pos2Z.inj_succ.
    replace (Z.succ (Zpos (digits2_pos m)) - 1) with (Z.succ (Zpos (digits2_pos m) - 1)) by lia.
    rewrite !Z.pow_succ_r by lia. lia.
  - rewrite Pos2Z.inj_succ.
    replace (Z.succ (Zpos (digits2_pos m)) - 1) with (Z.succ (Zpos (digits2_pos m) - 1)) by lia.
    rewrite !Z.pow_succ_r by lia. lia.
  - simpl. lia.
Qed.

Lemma digits_unique m d :
  2 ^ (d - 1) <= Zpos m < 2 ^ d -> digits m = d.
Proof.
  intros [Hlo Hhi]. pose proof (digits_bounds m) as [Dlo Dhi]. pose proof (digits_ge_1 m).
  assert (Hd : 1 <= d).
  { destruct (Z_lt_le_dec d 1) as [Hlt|]; [|assumption].
    assert (2 ^ d <= 1).
    { destruct (Z_lt_le_dec d 0). - rewrite Z.pow_neg_r by lia. lia.
      - replace d with 0 by lia. simpl. lia. }
    lia. }
  destruct (Z.lt_trichotomy (digits m) d) as [Hlt|[Heq|Hgt]]; [|assumption|].
  - assert (2 ^ digits m <= 2 ^ (d - 1)) by (apply Z.pow_le_mono_r; lia). lia.
  - assert (2 ^ d <= 2 ^ (digits m - 1)) by (apply Z.pow_le_mono_r; lia). lia.
Qed.

Lemma digits_shift m j : 0 <= j ->
  forall p, Zpos p = Zpos m * 2 ^ j -> digits p = digits m + j.
Proof.
  intros Hj p Hp. apply digits_unique. rewrite Hp.
  pose proof (digits_bounds m) as [Dlo Dhi]. pose proof (digits_ge_1 m).
  replace (digits m + j - 1) with ((digits m - 1) + j) by lia.
  rewrite !Z.pow_add_r by lia.
  assert (0 < 2 ^ j) by (apply Z.pow_pos_nonneg; lia).
  split; nia.
Qed.

Lemma digits_mono m1 m2 : Zpos m1 <= Zpos m2 -> digits m1 <= digits m2.
Proof.
  intros Hle. pose proof (digits_bounds m1) as [L1 H1]. pose proof (digits_bounds m2) as [L2 H2].
  destruct (Z_lt_le_dec (digits m2) (digits m1)) as [Hlt|]; [|assumption].
  assert (2 ^ digits m2 <= 2 ^ (digits m1 - 1)) by (apply Z.pow_le_mono_r; lia). lia.
Qed.

(** Right shifts, one bit at a time. *)
Lemma iter_shift {A} (f : A -> A) n x : Nat.iter n f (f x) = f (Nat.iter n f x).
Proof. induction n as [|n IH]; [reflexivity|]. simpl. now rewrite IH. Qed.

Lemma iter_pos_nat {A} (f : A -> A) p x : iter_pos f p x = Nat.iter (Pos.to_nat p) f x.
Proof.
  revert x. induction p as [p IH|p IH|]; intros x; cbn [iter_pos].
  - rewrite !IH.
    replace (Pos.to_nat p~1) with (S (Pos.to_nat p + Pos.to_nat p)) by lia.
    simpl Nat.iter. rewrite Nat.iter_add, !iter_shift. reflexivity.
  - rewrite !IH.
    replace (Pos.to_nat p~0) with (Pos.to_nat p + Pos.to_nat p)%nat by lia.
    now rewrite Nat.iter_add.
  - reflexivity.
Qed.

Lemma shr_1_nonneg q r s : 0 <= q ->
  shr_1 (Build_shr_record q r s) = Build_shr_record (q / 2) (Z.odd q) (r || s).
Proof.
  intros Hq. destruct q as [|[p|p|]|p]; try lia; cbn [shr_1].
  - reflexivity.
  - f_equal. rewrite Pos2Z.inj_xI. symmetry.
    rewrite Z.mul_comm, Z.div_add_l by lia. simpl. lia.
  - f_equal. rewrite Pos2Z.inj_xO. symmetry.
    rewrite Z.mul_comm. apply Z.div_mul. lia.
  - reflexivity.
Qed.

Lemma mod_pow_succ m k : 0 <= k ->
  m mod 2 ^ (k + 1) = m mod 2 ^ k + 2 ^ k * ((m / 2 ^ k) mod 2).
Proof.
  intros Hk. rewrite Z.pow_add_r by lia. change (2 ^ 1) with 2.
  apply Z.rem_mul_r; [|lia]. apply Z.pow_nonzero; lia.
Qed.

(** Shifting a mantissa right by [k] bits and rounding by the bits shifted out
    is dividing by [2^k] and rounding by the remainder. *)
Lemma shr_iter m (k : nat) : 0 <= m ->
  let rec := Nat.iter k shr_1 (Build_shr_record m false false) in
  shr_m rec = m / 2 ^ Z.of_nat k /\
  round_nearest_even (shr_m rec) (loc_of_shr_record rec) =
    rne (m / 2 ^ Z.of_nat k) (2 * (m mod 2 ^ Z.of_nat k)) (2 ^ Z.of_nat k).
Proof.
  intros Hm rec.
  assert (Inv : exists q r s low,
    rec = Build_shr_record q r s /\ q = m / 2 ^ Z.of_nat k /\
    2 * (m mod 2 ^ Z.of_nat k) = (if r then 2 ^ Z.of_nat k else 0) + 2 * low /\
    0 <= low /\ 2 * low < 2 ^ Z.of_nat k /\ (s = true <-> low <> 0)).
  { subst rec. induction k as [|k IH].
    - exists m, false, false, 0. simpl. rewrite Z.div_1_r, Z.mod_1_r.
      repeat split; try lia; try discriminate.
    - destruct IH as (q & r & s & low & Hrec & Hq & Hrem & Hlow0 & Hlow & Hs).
      simpl Nat.iter. rewrite Hrec.
      assert (Hq0 : 0 <= q) by (subst q; apply Z.div_pos; [lia | apply Z.pow_pos_nonneg; lia]).
      rewrite shr_1_nonneg by assumption.
      assert (Hpow : 0 < 2 ^ Z.of_nat k) by (apply Z.pow_pos_nonneg; lia).
      exists (q / 2), (Z.odd q), (r || s), (m mod 2 ^ Z.of_nat k).
      rewrite Nat2Z.inj_succ. unfold Z.succ.
      split; [reflexivity|]. split.
      { subst q. rewrite Z.pow_add_r by lia. change (2 ^ 1) with 2.
        rewrite Z.div_div by lia. reflexivity. }
      pose proof (Z.mod_pos_bound m (2 ^ Z.of_nat k) Hpow) as Hmod.
      split; [|split; [lia|split]].
      + rewrite mod_pow_succ by lia. rewrite <- Hq, Zmod_odd.
        rewrite Z.pow_add_r by lia. change (2 ^ 1) with 2.
        destruct (Z.odd q); lia.
      + rewrite Z.pow_add_r by lia. change (2 ^ 1) with 2. lia.
      + destruct r; simpl.
        * split; [intros _; lia | reflexivity].
        * rewrite Hs. lia. }
  destruct Inv as (q & r & s & low & Hrec & Hq & Hrem & Hlow0 & Hlow & Hs).
  rewrite Hrec. cbn [shr_m]. split; [assumption|].
  rewrite <- Hq, Hrem. unfold rne.
  assert (Hpow : 0 < 2 ^ Z.of_nat k) by (apply Z.pow_pos_nonneg; lia).
  destruct r, s; cbn [loc_of_shr_record round_nearest_even].
  - assert (low <> 0) by (now apply Hs).
    replace (2 ^ Z.of_nat k + 2 * low ?= 2 ^ Z.of_nat k) with Gt
      by (symmetry; apply Z.compare_gt_iff; lia). reflexivity.
  - assert (low = 0).
    { destruct (Z.eq_dec low 0); [assumption|]. apply Hs in n. discriminate. }
    subst low. rewrite Z.add_0_r, Z.compare_refl. reflexivity.
  - replace (0 + 2 * low ?= 2 ^ Z.of_nat k) with Lt
      by (symmetry; apply Z.compare_lt_iff; lia). reflexivity.
  - replace (0 + 2 * low ?= 2 ^ Z.of_nat k) with Lt
      by (symmetry; apply Z.compare_lt_iff; lia). reflexivity.
Qed.

Lemma fexp_eq e : fexp prec emax e = Z.max (e - 53) (-1074).
Proof. reflexivity. Qed.

Lemma rne_bounds q rem2 pow : q <= rne q rem2 pow <= q + 1.
Proof. unfold rne. destruct (rem2 ?= pow); [destruct (Z.even q)| |]; lia. Qed.

(** A mantissa shifted down to 53 digits is below [2^53]. *)
Lemma quotient_lt m n : digits m - 53 <= n -> 0 <= n -> Zpos m / 2 ^ n < 2 ^ 53.
Proof.
  intros Hn Hn0. pose proof (digits_bounds m) as [_ Hhi].
  apply Z.div_lt_upper_bound; [apply Z.pow_pos_nonneg; lia|].
  rewrite <- Z.pow_add_r by lia.
  assert (2 ^ digits m <= 2 ^ (n + 53)) by (apply Z.pow_le_mono_r; lia). lia.
Qed.

(** What [binary_round_aux] returns for an exact mantissa that has to be
    shifted right by [n >= 0] bits. *)
Lemma round_aux_spec s m e :
  let n := fexp prec emax (digits m + e) - e in
  0 <= n ->
  binary_round_aux prec emax s (Zpos m) e loc_Exact =
  assemble s (rne (Zpos m / 2 ^ n) (2 * (Zpos m mod 2 ^ n)) (2 ^ n)) (e + n).
Proof.
  intros n Hn.
  unfold binary_round_aux, shr_fexp. cbn [Zdigits2 shr_record_of_loc].
  fold (digits m). fold n.
  assert (Hfirst : exists rec,
    shr (Build_shr_record (Zpos m) false false) e n = (rec, e + n) /\
    round_nearest_even (shr_m rec) (loc_of_shr_record rec) =
      rne (Zpos m / 2 ^ n) (2 * (Zpos m mod 2 ^ n)) (2 ^ n)).
  { destruct n as [|p|p] eqn:En; [| |lia].
    - eexists. split; [unfold shr; rewrite Z.add_0_r; reflexivity|].
      cbn [shr_m loc_of_shr_record round_nearest_even].
      change (2 ^ 0) with 1. rewrite Z.div_1_r, Z.mod_1_r. reflexivity.
    - eexists. split; [unfold shr; reflexivity|].
      rewrite iter_pos_nat.
      pose proof (shr_iter (Zpos m) (Pos.to_nat p)) as H.
      rewrite positive_nat_Z in H. apply H. lia. }
  destruct Hfirst as (rec & Hshr & Hrne). rewrite Hshr, Hrne.
  set (m2 := rne (Zpos m / 2 ^ n) (2 * (Zpos m mod 2 ^ n)) (2 ^ n)).
  set (E := e + n).
  assert (HE : E = fexp prec emax (digits m + e)) by (unfold E, n; lia).
  assert (HEmin : -1074 <= E) by (rewrite HE, fexp_eq; lia).
  assert (Hq : 0 <= Zpos m / 2 ^ n < 2 ^ 53).
  { split; [apply Z.div_pos; [lia | apply Z.pow_pos_nonneg; lia]|].
    apply quotient_lt; [|lia]. unfold n. rewrite fexp_eq. lia. }
  assert (Hm2 : 0 <= m2 <= 2 ^ 53).
  { pose proof (rne_bounds (Zpos m / 2 ^ n) (2 * (Zpos m mod 2 ^ n)) (2 ^ n)). unfold m2. lia. }
  unfold assemble.
  destruct (Z.eqb_spec m2 0) as [H0|H0].
  - rewrite H0. cbn [Zdigits2]. rewrite Z.add_0_l, fexp_eq.
    destruct (Z.max (E - 53) (-1074) - E) eqn:En2; try lia; reflexivity.
  - destruct (Z.eqb_spec m2 (2 ^ 53)) as [H53|H53].
    + rewrite H53. change (2 ^ 53) with (Zpos (Z.to_pos (2 ^ 53))).
      cbn [Zdigits2]. change (Zpos (digits2_pos (Z.to_pos (2 ^ 53)))) with 54.
      rewrite fexp_eq.
      replace (Z.max (54 + E - 53) (-1074) - E) with 1 by lia.
      reflexivity.
    + destruct m2 as [|p2|p2] eqn:Em2; try lia.
      cbn [Zdigits2]. fold (digits p2).
      assert (Hd : digits p2 <= 53).
      { pose proof (digits_bounds p2) as [Hlo _].
        destruct (Z_lt_le_dec 53 (digits p2)) as [Hlt|]; [|lia].
        assert (2 ^ 53 <= 2 ^ (digits p2 - 1)) by (apply Z.pow_le_mono_r; lia). lia. }
      rewrite fexp_eq.
      destruct (Z.max (digits p2 + E - 53) (-1074) - E) eqn:En2; try lia; reflexivity.
Qed.

Lemma pow2_pos k : 0 <= k -> 0 < 2 ^ k.
Proof. intros. apply Z.pow_pos_nonneg; lia. Qed.

Lemma Omega_pos L : L <= -1074 -> 0 < Omega L.
Proof. intros. apply pow2_pos. lia. Qed.

Lemma shift_of_nonneg L p : L <= -1074 -> 0 <= shift_of L p.
Proof. unfold shift_of. lia. Qed.

Lemma round_pos_nonneg L p : L <= -1074 -> 0 <= round_pos L p.
Proof.
  intros HL. unfold round_pos. pose proof (shift_of_nonneg L p HL) as Hk.
  pose proof (pow2_pos _ Hk).
  pose proof (rne_bounds (Zpos p / 2 ^ shift_of L p) (2 * (Zpos p mod 2 ^ shift_of L p)) (2 ^ shift_of L p)).
  assert (0 <= Zpos p / 2 ^ shift_of L p) by (apply Z.div_pos; lia).
  apply Z.mul_nonneg_nonneg; lia.
Qed.

Lemma rne_mono_rem q r1 r2 pow : r1 <= r2 -> rne q r1 pow <= rne q r2 pow.
Proof.
  intros Hr. unfold rne.
  destruct (Z.compare_spec r1 pow), (Z.compare_spec r2 pow); destruct (Z.even q); lia.
Qed.

Lemma quotient_ge m n : n = digits m - 53 -> 0 <= n -> 2 ^ 52 <= Zpos m / 2 ^ n.
Proof.
  intros Hn Hn0. pose proof (digits_bounds m) as [Hlo _].
  apply Z.div_le_lower_bound; [apply pow2_pos; lia|].
  rewrite <- Z.pow_add_r by lia.
  replace (n + 52) with (digits m - 1) by lia. assumption.
Qed.

(** Rounding is monotone. *)
Lemma round_pos_mono L p1 p2 : L <= -1074 -> Zpos p1 <= Zpos p2 -> round_pos L p1 <= round_pos L p2.
Proof.
  intros HL Hle.
  pose proof (digits_mono p1 p2 Hle) as Hd.
  pose proof (shift_of_nonneg L p1 HL) as Hk1. pose proof (shift_of_nonneg L p2 HL) as Hk2.
  assert (Hk : shift_of L p1 <= shift_of L p2) by (unfold shift_of; lia).
  unfold round_pos.
  set (k1 := shift_of L p1) in *. set (k2 := shift_of L p2) in *.
  set (q1 := Zpos p1 / 2 ^ k1). set (q2 := Zpos p2 / 2 ^ k2).
  pose proof (pow2_pos _ Hk1) as Hp1. pose proof (pow2_pos _ Hk2) as Hp2.
  pose proof (rne_bounds q1 (2 * (Zpos p1 mod 2 ^ k1)) (2 ^ k1)) as Hr1.
  pose proof (rne_bounds q2 (2 * (Zpos p2 mod 2 ^ k2)) (2 ^ k2)) as Hr2.
  assert (Hq1 : 0 <= q1) by (apply Z.div_pos; lia).
  assert (Hq2 : 0 <= q2) by (apply Z.div_pos; lia).
  destruct (Z.eq_dec k1 k2) as [Heq|Hne].
  - rewrite <- Heq in *. fold q1.
    apply Z.mul_le_mono_nonneg_r; [lia|].
    assert (Hq : q1 <= q2) by (unfold q1, q2; rewrite <- Heq; apply Z.div_le_mono; lia).
    destruct (Z.eq_dec q1 q2) as [Hqe|Hqn].
    + unfold q2 in Hqe |- *. rewrite <- Heq in Hqe |- *. fold q1 in Hqe |- *.
      rewrite <- Hqe. apply rne_mono_rem.
      pose proof (Z.div_mod (Zpos p1) (2 ^ k1)) as E1.
      pose proof (Z.div_mod (Zpos p2) (2 ^ k1)) as E2.
      fold q1 in E1. rewrite <- Hqe in E2. lia.
    + unfold q2 in *. rewrite <- Heq in *. lia.
  - assert (Hlt : k1 < k2) by lia.
    assert (Hk2e : k2 = digits p2 - 53) by (unfold k2, shift_of in *; lia).
    assert (Hq2ge : 2 ^ 52 <= q2) by (apply quotient_ge; lia).
    set (M := Z.max (digits p1) k1).
    assert (HM : M <= k2 + 52) by (unfold M, k1, k2, shift_of in *; lia).
    assert (Hq1lt : q1 < 2 ^ (M - k1)).
    { unfold q1. apply Z.div_lt_upper_bound; [lia|].
      rewrite <- Z.pow_add_r by (unfold M; lia).
      replace (k1 + (M - k1)) with M by lia.
      pose proof (digits_bounds p1) as [_ Hhi].
      assert (2 ^ digits p1 <= 2 ^ M) by (apply Z.pow_le_mono_r; unfold M; lia). lia. }
    apply Z.le_trans with (2 ^ (k2 + 52)).
    + apply Z.le_trans with (2 ^ (M - k1) * 2 ^ k1).
      * apply Z.mul_le_mono_nonneg_r; lia.
      * rewrite <- Z.pow_add_r by (unfold M; lia).
        apply Z.pow_le_mono_r; lia.
    + rewrite Z.pow_add_r by lia. rewrite (Z.mul_comm (2 ^ k2)).
      apply Z.mul_le_mono_nonneg_r; lia.
Qed.

Lemma round_Z_mono L N1 N2 : L <= -1074 -> N1 <= N2 -> round_Z L N1 <= round_Z L N2.
Proof.
  intros HL Hle. pose proof (Omega_pos L HL).
  destruct N1 as [|p1|p1], N2 as [|p2|p2]; cbn [round_Z]; try lia;
    try (pose proof (round_pos_nonneg L p1 HL)); try (pose proof (round_pos_nonneg L p2 HL)); try lia.
  - pose proof (round_pos_mono L p1 p2 HL Hle). lia.
  - assert (Hrev : Zpos p2 <= Zpos p1) by lia.
    pose proof (round_pos_mono L p2 p1 HL Hrev). lia.
Qed.

Lemma mul_compare_pos a b c : 0 < c -> (a * c ?= b * c) = (a ?= b).
Proof.
  intros Hc. destruct (Z.compare_spec a b) as [->|Hlt|Hgt].
  - apply Z.compare_refl.
  - apply Z.compare_lt_iff. nia.
  - apply Z.compare_gt_iff. nia.
Qed.

(** Canonical mantissas. *)
Lemma valid_finite s m e :
  valid64 (S754_finite s m e) = true ->
  digits m <= 53 /\ -1074 <= e <= 971 /\ (digits m = 53 \/ e = -1074).
Proof.
  cbn [SpecFloat.valid_binary]. unfold bounded, canonical_mantissa.
  intros H. apply andb_prop in H. destruct H as [Hc Hb].
  apply Z.eqb_eq in Hc. apply Z.leb_le in Hb. fold (digits m) in Hc.
  rewrite fexp_eq in Hc. change (emax - prec) with 971 in Hb. lia.
Qed.

Lemma finite_value_bounds L s m e :
  L <= -1074 -> valid64 (S754_finite s m e) = true ->
  0 < Zpos m * 2 ^ (e - L) < Omega L.
Proof.
  intros HL Hv. apply valid_finite in Hv. destruct Hv as (Hd & He & _).
  pose proof (digits_bounds m) as [_ Hhi].
  assert (0 < 2 ^ (e - L)) by (apply pow2_pos; lia).
  split; [lia|]. unfold Omega.
  replace (1024 - L) with (53 + (971 - L)) by lia. rewrite Z.pow_add_r by lia.
  assert (2 ^ digits m <= 2 ^ 53) by (apply Z.pow_le_mono_r; lia).
  assert (2 ^ (e - L) <= 2 ^ (971 - L)) by (apply Z.pow_le_mono_r; lia).
  nia.
Qed.

Lemma canonical_lt L m1 e1 m2 e2 :
  L <= -1074 ->
  valid64 (S754_finite false m1 e1) = true ->
  valid64 (S754_finite false m2 e2) = true ->
  e1 < e2 -> Zpos m1 * 2 ^ (e1 - L) < Zpos m2 * 2 ^ (e2 - L).
Proof.
  intros HL H1 H2 Hlt.
  apply valid_finite in H1, H2.
  destruct H1 as (Hd1 & He1 & _). destruct H2 as (Hd2 & He2 & Hn2).
  assert (Hd : digits m2 = 53) by lia.
  pose proof (digits_bounds m1) as [_ Hhi1]. pose proof (digits_bounds m2) as [Hlo2 _].
  rewrite Hd in Hlo2. change (53 - 1) with 52 in Hlo2.
  assert (2 ^ digits m1 <= 2 ^ 53) by (apply Z.pow_le_mono_r; lia).
  assert (Hp1 : 0 < 2 ^ (e1 - L)) by (apply pow2_pos; lia).
  assert (Hp2 : 2 * 2 ^ (e1 - L) <= 2 ^ (e2 - L)).
  { replace (2 * 2 ^ (e1 - L)) with (2 ^ (e1 - L + 1))
      by (rewrite Z.pow_add_r by lia; change (2 ^ 1) with 2; lia).
    apply Z.pow_le_mono_r; lia. }
  change (2 ^ 53) with (2 * 2 ^ 52) in *. nia.
Qed.

(** Comparison of valid numbers is comparison of their values. *)
Lemma SFcompare_fval L a b :
  L <= -1074 -> valid64 a = true -> valid64 b = true ->
  is_nan_sf a = false -> is_nan_sf b = false ->
  SFcompare a b = Some (fval L a ?= fval L b).
Proof.
  intros HL Va Vb Na Nb. pose proof (Omega_pos L HL) as HO.
  destruct a as [sa|sa| |sa ma ea], b as [sb|sb| |sb mb eb]; try discriminate;
    try (pose proof (finite_value_bounds L sa ma ea HL Va) as Ba);
    try (pose proof (finite_value_bounds L sb mb eb HL Vb) as Bb);
    cbn [SFcompare fval].
  - reflexivity.
  - f_equal. symmetry. destruct sb; [apply Z.compare_gt_iff | apply Z.compare_lt_iff]; lia.
  - f_equal. symmetry. destruct sb; [apply Z.compare_gt_iff | apply Z.compare_lt_iff]; lia.
  - f_equal. symmetry. destruct sa; [apply Z.compare_lt_iff | apply Z.compare_gt_iff]; lia.
  - f_equal. symmetry. destruct sa, sb;
      first [apply Z.compare_eq_iff | apply Z.compare_lt_iff | apply Z.compare_gt_iff]; lia.
  - f_equal. symmetry. destruct sa; destruct sb;
      first [apply Z.compare_lt_iff; lia | apply Z.compare_gt_iff; lia].
  - f_equal. symmetry. destruct sa; [apply Z.compare_lt_iff | apply Z.compare_gt_iff]; lia.
  - f_equal. symmetry. destruct sa; destruct sb;
      first [apply Z.compare_lt_iff; lia | apply Z.compare_gt_iff; lia].
  - assert (Va' : valid64 (S754_finite false ma ea) = true) by exact Va.
    assert (Vb' : valid64 (S754_finite false mb eb) = true) by exact Vb.
    f_equal. symmetry.
    assert (Hpos : forall c,
      (match ea ?= eb with
       | Eq => Pos.compare_cont Eq ma mb | Lt => Lt | Gt => Gt end) = c ->
      (Zpos ma * 2 ^ (ea - L) ?= Zpos mb * 2 ^ (eb - L)) = c).
    { intros c Hc. destruct (Z.compare_spec ea eb) as [Heq|Hlt|Hgt].
      - subst eb. rewrite <- Hc.
        change (Pos.compare_cont Eq ma mb) with (Zpos ma ?= Zpos mb).
        apply mul_compare_pos. apply pow2_pos. apply valid_finite in Va. lia.
      - subst c. apply Z.compare_lt_iff. now apply canonical_lt.
      - subst c. apply Z.compare_gt_iff. now apply canonical_lt. }
    destruct sa, sb.
    + rewrite Z.compare_opp.
      rewrite (Z.compare_antisym (Zpos ma * 2 ^ (ea - L)) (Zpos mb * 2 ^ (eb - L))).
      rewrite (Hpos _ eq_refl).
      destruct (ea ?= eb); reflexivity.
    + apply Z.compare_lt_iff. lia.
    + apply Z.compare_gt_iff. lia.
    + now apply Hpos.
Qed.

Lemma round_pos_scaled L m e pN :
  L <= -1074 -> L <= e ->
  let n := fexp prec emax (digits m + e) - e in
  0 <= n ->
  Zpos pN = Zpos m * 2 ^ (e - L) ->
  round_pos L pN = rne (Zpos m / 2 ^ n) (2 * (Zpos m mod 2 ^ n)) (2 ^ n) * 2 ^ (e + n - L).
Proof.
  intros HL He n Hn HN.
  assert (Hj : 0 <= e - L) by lia.
  pose proof (pow2_pos _ Hj) as Hpj. pose proof (pow2_pos _ Hn) as Hpn.
  assert (Hd : digits pN = digits m + (e - L)) by (now apply digits_shift).
  assert (Hk : shift_of L pN = n + (e - L)).
  { unfold shift_of, n. rewrite Hd, fexp_eq. lia. }
  unfold round_pos. rewrite Hk, HN.
  replace (e + n - L) with (n + (e - L)) by lia.
  rewrite !Z.pow_add_r by lia.
  rewrite Z.div_mul_cancel_r by lia.
  rewrite Z.mul_mod_distr_r by lia.
  f_equal. unfold rne.
  replace (2 * (Zpos m mod 2 ^ n * 2 ^ (e - L))) with (2 * (Zpos m mod 2 ^ n) * 2 ^ (e - L)) by lia.
  now rewrite mul_compare_pos.
Qed.

(** The value of what [binary_round_aux] returns is the rounding of the value
    of its argument. *)
Lemma round_aux_value L s m e pN :
  L <= -1074 -> L <= e ->
  0 <= fexp prec emax (digits m + e) - e ->
  Zpos pN = Zpos m * 2 ^ (e - L) ->
  is_nan_sf (binary_round_aux prec emax s (Zpos m) e loc_Exact) = false /\
  fval L (binary_round_aux prec emax s (Zpos m) e loc_Exact) =
    sgn s (Z.min (round_pos L pN) (Omega L)).
Proof.
  intros HL He Hn HN.
  rewrite (round_pos_scaled L m e pN HL He Hn HN).
  rewrite (round_aux_spec s m e Hn).
  set (n := fexp prec emax (digits m + e) - e) in *.
  set (q := Zpos m / 2 ^ n).
  set (m2 := rne q (2 * (Zpos m mod 2 ^ n)) (2 ^ n)).
  set (E := e + n).
  assert (HEeq : E = Z.max (digits m + e - 53) (-1074)) by (unfold E, n; rewrite fexp_eq; lia).
  assert (Hq : 0 <= q < 2 ^ 53).
  { split; [apply Z.div_pos; [lia | apply pow2_pos; lia]|].
    apply quotient_lt; lia. }
  pose proof (rne_bounds q (2 * (Zpos m mod 2 ^ n)) (2 ^ n)) as Hr. fold m2 in Hr.
  assert (HEL : 0 <= E - L) by lia.
  pose proof (pow2_pos _ HEL) as HpE.
  assert (HO : Omega L = 2 ^ 53 * 2 ^ (971 - L)).
  { unfold Omega. rewrite <- Z.pow_add_r by lia. f_equal. lia. }
  unfold assemble.
  destruct (Z.eqb_spec m2 0) as [H0|H0].
  - split; [reflexivity|]. cbn [fval]. rewrite H0, Z.mul_0_l.
    rewrite Z.min_l by (pose proof (Omega_pos L HL); lia). destruct s; reflexivity.
  - destruct (Z.eqb_spec m2 (2 ^ 53)) as [H53|H53].
    + rewrite H53. destruct (Z.leb_spec (E + 1) 971) as [Hle|Hgt].
      * split; [reflexivity|]. cbn [fval].
        change (Zpos (Z.to_pos (2 ^ 52))) with (2 ^ 52).
        replace (E + 1 - L) with (1 + (E - L)) by lia.
        rewrite Z.pow_add_r by lia. change (2 ^ 1) with 2.
        assert (2 ^ (E - L) < 2 ^ (971 - L)) by (apply Z.pow_lt_mono_r; lia).
        rewrite Z.min_l by (rewrite HO; nia).
        change (2 ^ 53) with (2 ^ 52 * 2). unfold sgn. destruct s; lia.
      * split; [reflexivity|]. cbn [fval].
        assert (2 ^ (971 - L) <= 2 ^ (E - L)) by (apply Z.pow_le_mono_r; lia).
        rewrite Z.min_r by (rewrite HO; nia). unfold sgn. destruct s; reflexivity.
    + assert (Hm2 : 0 < m2 < 2 ^ 53) by lia.
      destruct (Z.leb_spec E 971) as [Hle|Hgt].
      * split; [reflexivity|]. cbn [fval]. rewrite Z2Pos.id by lia.
        assert (2 ^ (E - L) <= 2 ^ (971 - L)) by (apply Z.pow_le_mono_r; lia).
        rewrite Z.min_l by (rewrite HO; nia). unfold sgn. destruct s; reflexivity.
      * split; [reflexivity|]. cbn [fval].
        assert (Hn53 : n = digits m - 53) by (unfold E in *; lia).
        assert (Hqge : 2 ^ 52 <= q) by (apply quotient_ge; lia).
        assert (2 ^ (972 - L) <= 2 ^ (E - L)) by (apply Z.pow_le_mono_r; lia).
        assert (HO2 : Omega L = 2 ^ 52 * 2 ^ (972 - L)).
        { unfold Omega. rewrite <- Z.pow_add_r by lia. f_equal. lia. }
        rewrite Z.min_r by (rewrite HO2; nia). unfold sgn. destruct s; reflexivity.
Qed.

(** Left shifts. *)
Lemma pos_iter_xO m d : Zpos (Pos.iter xO m d) = Zpos m * 2 ^ Zpos d.
Proof.
  revert m. induction d using Pos.peano_ind; intros m.
  - simpl. lia.
  - rewrite Pos.iter_succ. rewrite Pos2Z.inj_succ, Z.pow_succ_r by lia.
    rewrite Pos2Z.inj_xO, IHd. lia.
Qed.

Lemma shl_align_value mx ex ex' :
  let '(mz, ez) := shl_align mx ex ex' in
  ez = Z.min ex ex' /\ Zpos mz = Zpos mx * 2 ^ (ex - ez).
Proof.
  unfold shl_align. destruct (ex' - ex) eqn:Hd.
  - split; [lia|]. replace (ex - ex) with 0 by lia. simpl. lia.
  - split; [lia|]. replace (ex - ex) with 0 by lia. simpl. lia.
  - split; [lia|]. rewrite pos_iter_xO. f_equal. f_equal. lia.
Qed.

Lemma binary_round_value L s m e pN :
  L <= -1074 -> L <= e ->
  Zpos pN = Zpos m * 2 ^ (e - L) ->
  is_nan_sf (binary_round prec emax s m e) = false /\
  fval L (binary_round prec emax s m e) = sgn s (Z.min (round_pos L pN) (Omega L)).
Proof.
  intros HL He HN. unfold binary_round.
  pose proof (shl_align_value m e (fexp prec emax (Zpos (digits2_pos m) + e))) as Hs.
  fold (digits m) in Hs |- *.
  destruct (shl_align m e (fexp prec emax (digits m + e))) as [mz ez].
  destruct Hs as [Hez Hmz].
  assert (Hf : -1074 <= fexp prec emax (digits m + e)) by (rewrite fexp_eq; lia).
  assert (Hsh : 0 <= e - ez) by lia.
  assert (Hdz : digits mz = digits m + (e - ez)) by (now apply digits_shift).
  apply round_aux_value; try lia.
  - rewrite Hdz. replace (digits m + (e - ez) + ez) with (digits m + e) by lia. lia.
  - rewrite HN, Hmz. replace (e - L) with ((e - ez) + (ez - L)) by lia.
    rewrite Z.pow_add_r by lia. lia.
Qed.

Lemma round_Z_pos L N : 0 < N -> round_Z L N = Z.min (round_pos L (Z.to_pos N)) (Omega L).
Proof. destruct N; try lia. reflexivity. Qed.

Lemma round_Z_opp L N : round_Z L (- N) = - round_Z L N.
Proof. destruct N; cbn [round_Z Z.opp]; lia. Qed.

Lemma binary_normalize_value L M e sz :
  L <= -1074 -> L <= e ->
  is_nan_sf (binary_normalize prec emax M e sz) = false /\
  fval L (binary_normalize prec emax M e sz) = round_Z L (M * 2 ^ (e - L)).
Proof.
  intros HL He. assert (Hp : 0 < 2 ^ (e - L)) by (apply pow2_pos; lia).
  destruct M as [|m|m]; cbn [binary_normalize].
  - split; reflexivity.
  - assert (HN : 0 < Zpos m * 2 ^ (e - L)) by lia.
    rewrite (round_Z_pos L _ HN).
    apply (binary_round_value L false m e (Z.to_pos (Zpos m * 2 ^ (e - L))) HL He).
    rewrite Z2Pos.id by lia. reflexivity.
  - assert (HN : 0 < Zpos m * 2 ^ (e - L)) by lia.
    replace (Zneg m * 2 ^ (e - L)) with (- (Zpos m * 2 ^ (e - L))) by lia.
    rewrite round_Z_opp, (round_Z_pos L _ HN).
    apply (binary_round_value L true m e (Z.to_pos (Zpos m * 2 ^ (e - L))) HL He).
    rewrite Z2Pos.id by lia. reflexivity.
Qed.

(** Rounding leaves a representable value unchanged. *)
Lemma round_pos_representable L m e pN :
  L <= -1074 -> valid64 (S754_finite false m e) = true ->
  Zpos pN = Zpos m * 2 ^ (e - L) -> round_pos L pN = Zpos pN.
Proof.
  intros HL Hv HN. apply valid_finite in Hv. destruct Hv as (Hd & He & Hc).
  assert (Hj : 0 <= e - L) by lia. pose proof (pow2_pos _ Hj) as Hp.
  assert (Hdig : digits pN = digits m + (e - L)) by (now apply digits_shift).
  assert (Hk : shift_of L pN = e - L) by (unfold shift_of; lia).
  unfold round_pos. rewrite Hk, HN.
  rewrite Z.div_mul by lia. rewrite Z.mod_mul by lia.
  unfold rne. change (2 * 0) with 0.
  destruct (Z.compare_spec 0 (2 ^ (e - L))); try lia.
Qed.

Lemma round_Z_fval L f :
  L <= -1074 -> valid64 f = true -> is_finite_sf f = true ->
  round_Z L (fval L f) = fval L f.
Proof.
  intros HL Hv Hf. destruct f as [s|s| |s m e]; try discriminate; [reflexivity|].
  assert (Hv' : valid64 (S754_finite false m e) = true) by exact Hv.
  pose proof (finite_value_bounds L false m e HL Hv') as HB.
  assert (HG : round_pos L (Z.to_pos (Zpos m * 2 ^ (e - L))) = Zpos m * 2 ^ (e - L)).
  { rewrite (round_pos_representable L m e _ HL Hv'); rewrite Z2Pos.id by lia; reflexivity. }
  cbn [fval]. destruct s.
  - rewrite round_Z_opp, round_Z_pos by lia. rewrite HG. lia.
  - rewrite round_Z_pos by lia. rewrite HG. lia.
Qed.

Lemma shl_align_fst m e ez :
  ez <= e -> Zpos (fst (shl_align m e ez)) = Zpos m * 2 ^ (e - ez).
Proof.
  intros Hle. pose proof (shl_align_value m e ez) as H.
  destruct (shl_align m e ez) as [mz e']. destruct H as [He' Hm].
  cbn [fst]. rewrite Hm. f_equal. f_equal. lia.
Qed.

(** The sum of two finite numbers is the rounding of the sum of their
    values. *)
Lemma SFadd_value L x y :
  L <= -1074 -> valid64 x = true -> valid64 y = true ->
  is_finite_sf x = true -> is_finite_sf y = true ->
  is_nan_sf (SFadd prec emax x y) = false /\
  fval L (SFadd prec emax x y) = round_Z L (fval L x + fval L y).
Proof.
  intros HL Vx Vy Fx Fy.
  destruct x as [sx|sx| |sx mx ex], y as [sy|sy| |sy my ey]; try discriminate.
  - cbn [SFadd fval]. destruct sx, sy; split; reflexivity.
  - cbn [SFadd]. split; [reflexivity|].
    change (fval L (S754_zero sx)) with 0. rewrite Z.add_0_l.
    symmetry. now apply round_Z_fval.
  - cbn [SFadd]. split; [reflexivity|].
    change (fval L (S754_zero sy)) with 0. rewrite Z.add_0_r.
    symmetry. now apply round_Z_fval.
  - pose proof (valid_finite _ _ _ Vx) as (_ & Hex & _).
    pose proof (valid_finite _ _ _ Vy) as (_ & Hey & _).
    cbn [SFadd]. cbv zeta.
    set (ez := Z.min ex ey).
    assert (Hez : L <= ez) by (unfold ez; lia).
    destruct (binary_normalize_value L
      (cond_Zopp sx (Zpos (fst (shl_align mx ex ez))) +
       cond_Zopp sy (Zpos (fst (shl_align my ey ez)))) ez false HL Hez) as [Hn Hval].
    split; [exact Hn|]. rewrite Hval. f_equal.
    rewrite !shl_align_fst by (unfold ez; lia).
    cbn [fval].
    replace (ex - L) with ((ex - ez) + (ez - L)) by lia.
    replace (ey - L) with ((ey - ez) + (ez - L)) by lia.
    rewrite !Z.pow_add_r by (unfold ez; lia).
    destruct sx, sy; cbn [cond_Zopp]; lia.
Qed.

(** Subtracting is adding the opposite. *)
Lemma SFsub_SFadd x y : SFsub prec emax x y = SFadd prec emax x (SFopp y).
Proof.
  destruct x as [sx|sx| |sx mx ex], y as [sy|sy| |sy my ey]; cbn [SFsub SFadd SFopp];
    try reflexivity; try (destruct sx, sy; reflexivity).
Qed.

Lemma digits_mul m1 m2 : digits m1 + digits m2 - 1 <= digits (m1 * m2).
Proof.
  pose proof (digits_bounds m1) as [L1 _]. pose proof (digits_bounds m2) as [L2 _].
  pose proof (digits_bounds (m1 * m2)) as [_ H].
  pose proof (digits_ge_1 m1). pose proof (digits_ge_1 m2). pose proof (digits_ge_1 (m1 * m2)).
  rewrite Pos2Z.inj_mul in H.
  assert (Hp : 2 ^ (digits m1 - 1 + (digits m2 - 1)) < 2 ^ digits (m1 * m2)).
  { rewrite Z.pow_add_r by lia.
    assert (0 < 2 ^ (digits m1 - 1)) by (apply pow2_pos; lia).
    assert (0 < 2 ^ (digits m2 - 1)) by (apply pow2_pos; lia). nia. }
  apply Z.pow_lt_mono_r_iff in Hp; lia.
Qed.

(** The product of two finite numbers is the rounding of the product of their
    values. *)
Lemma SFmul_value L1 L2 x y :
  L1 <= -1074 -> L2 <= -1074 ->
  valid64 x = true -> valid64 y = true ->
  is_finite_sf x = true -> is_finite_sf y = true ->
  is_nan_sf (SFmul prec emax x y) = false /\
  fval (L1 + L2) (SFmul prec emax x y) = round_Z (L1 + L2) (fval L1 x * fval L2 y).
Proof.
  intros H1 H2 Vx Vy Fx Fy.
  destruct x as [sx|sx| |sx mx ex], y as [sy|sy| |sy my ey]; try discriminate;
    cbn [SFmul]; try (split; [reflexivity|]; cbn [fval]; rewrite ?Z.mul_0_l, ?Z.mul_0_r; reflexivity).
  pose proof (valid_finite _ _ _ Vx) as (Hdx & Hex & Hcx).
  pose proof (valid_finite _ _ _ Vy) as (Hdy & Hey & Hcy).
  pose proof (digits_mul mx my) as Hd.
  pose proof (digits_ge_1 mx). pose proof (digits_ge_1 my).
  assert (Hp1 : 0 < 2 ^ (ex - L1)) by (apply pow2_pos; lia).
  assert (Hp2 : 0 < 2 ^ (ey - L2)) by (apply pow2_pos; lia).
  assert (HN : 0 < Zpos mx * 2 ^ (ex - L1) * (Zpos my * 2 ^ (ey - L2))) by nia.
  destruct (round_aux_value (L1 + L2) (xorb sx sy) (mx * my) (ex + ey)
              (Z.to_pos (Zpos mx * 2 ^ (ex - L1) * (Zpos my * 2 ^ (ey - L2)))))
    as [Hn Hval]; try lia.
  - rewrite fexp_eq. lia.
  - rewrite Z2Pos.id by lia. rewrite Pos2Z.inj_mul.
    replace (ex + ey - (L1 + L2)) with ((ex - L1) + (ey - L2)) by lia.
    rewrite Z.pow_add_r by lia. lia.
  - split; [exact Hn|]. rewrite Hval. cbn [fval].
    destruct sx, sy; cbn [xorb sgn].
    + replace (- (Zpos mx * 2 ^ (ex - L1)) * - (Zpos my * 2 ^ (ey - L2)))
        with (Zpos mx * 2 ^ (ex - L1) * (Zpos my * 2 ^ (ey - L2))) by lia.
      now rewrite round_Z_pos by lia.
    + replace (- (Zpos mx * 2 ^ (ex - L1)) * (Zpos my * 2 ^ (ey - L2)))
        with (- (Zpos mx * 2 ^ (ex - L1) * (Zpos my * 2 ^ (ey - L2)))) by lia.
      now rewrite round_Z_opp, round_Z_pos by lia.
    + replace (Zpos mx * 2 ^ (ex - L1) * - (Zpos my * 2 ^ (ey - L2)))
        with (- (Zpos mx * 2 ^ (ex - L1) * (Zpos my * 2 ^ (ey - L2)))) by lia.
      now rewrite round_Z_opp, round_Z_pos by lia.
    + now rewrite round_Z_pos by lia.
Qed.

(** Rounding a nonnegative mantissa never yields NaN, whatever the location. *)
Lemma iter_shr_1_nonneg (k : nat) rec :
  0 <= shr_m rec -> 0 <= shr_m (Nat.iter k shr_1 rec).
Proof.
  induction k as [|k IH]; intros H; [exact H|].
  simpl Nat.iter. specialize (IH H).
  destruct (Nat.iter k shr_1 rec) as [q r s]. cbn [shr_m] in IH.
  rewrite shr_1_nonneg by exact IH. cbn [shr_m].
  apply Z.div_pos; lia.
Qed.

Lemma shr_fexp_nonneg m e l :
  0 <= m -> 0 <= shr_m (fst (shr_fexp prec emax m e l)).
Proof.
  intros Hm. unfold shr_fexp, shr.
  assert (H0 : 0 <= shr_m (shr_record_of_loc m l)) by (destruct l as [|[| |]]; exact Hm).
  destruct (fexp prec emax (Zdigits2 m + e) - e); cbn [fst]; try exact H0.
  rewrite iter_pos_nat. now apply iter_shr_1_nonneg.
Qed.

Lemma round_nearest_even_nonneg m l : 0 <= m -> 0 <= round_nearest_even m l.
Proof.
  intros Hm. destruct l as [|[| |]]; cbn [round_nearest_even]; try lia.
  destruct (Z.even m); lia.
Qed.

Lemma round_aux_not_nan s m e l :
  0 <= m -> is_nan_sf (binary_round_aux prec emax s m e l) = false.
Proof.
  intros Hm. unfold binary_round_aux.
  pose proof (shr_fexp_nonneg m e l Hm) as H1.
  destruct (shr_fexp prec emax m e l) as [mrs' e']. cbn [fst] in H1.
  pose proof (shr_fexp_nonneg (round_nearest_even (shr_m mrs') (loc_of_shr_record mrs')) e' loc_Exact
                (round_nearest_even_nonneg _ _ H1)) as H2.
  destruct (shr_fexp prec emax (round_nearest_even (shr_m mrs') (loc_of_shr_record mrs')) e' loc_Exact)
    as [mrs'' e'']. cbn [fst] in H2.
  destruct (shr_m mrs'') as [|p|p]; try reflexivity.
  - destruct (e'' <=? emax - prec); reflexivity.
  - lia.
Qed.

Lemma SFdiv_finite_not_nan x sy my ey :
  is_nan_sf x = false ->
  is_nan_sf (SFdiv prec emax x (S754_finite sy my ey)) = false.
Proof.
  intros Hx. destruct x as [sx|sx| |sx mx ex]; try discriminate; try reflexivity.
  cbn [SFdiv]. unfold SFdiv_core_binary. cbv zeta.
  set (m' := match ex - ey - _ with Z0 => Zpos mx | Zpos _ => Z.shiftl (Zpos mx) _ | Zneg _ => 0 end).
  assert (Hm' : 0 <= m').
  { unfold m'. destruct (ex - ey - _); try lia. apply Z.shiftl_nonneg. lia. }
  pose proof (Z.div_pos m' (Zpos my) Hm' ltac:(lia)) as Hq.
  unfold Z.div in Hq. destruct (Z.div_eucl m' (Zpos my)) as [q r]. cbn [fst] in Hq.
  now apply round_aux_not_nan.
Qed.

Lemma SFcompare_refl a : valid64 a = true -> is_nan_sf a = false -> SFcompare a a = Some Eq.
Proof.
  intros Va Na. rewrite (SFcompare_fval (-1074) a a) by (lia || assumption).
  now rewrite Z.compare_refl.
Qed.

(** From the specification to the operations on [float]. *)
Lemma is_nan_prim x : PrimFloat.is_nan x = is_nan_sf (Prim2SF x).
Proof.
  unfold PrimFloat.is_nan. rewrite eqb_spec. unfold SFeqb.
  destruct (is_nan_sf (Prim2SF x)) eqn:Hn.
  - destruct (Prim2SF x); try discriminate. reflexivity.
  - rewrite SFcompare_refl; [reflexivity | apply Prim2SF_valid | exact Hn].
Qed.

Lemma leb_not_nan x y :
  PrimFloat.leb x y = true ->
  is_nan_sf (Prim2SF x) = false /\ is_nan_sf (Prim2SF y) = false.
Proof.
  rewrite leb_spec. unfold SFleb.
  destruct (Prim2SF x), (Prim2SF y); cbn [SFcompare]; intros H; try discriminate H;
    split; reflexivity.
Qed.

Lemma leb_fval L x y :
  L <= -1074 ->
  is_nan_sf (Prim2SF x) = false -> is_nan_sf (Prim2SF y) = false ->
  PrimFloat.leb x y = (fval L (Prim2SF x) <=? fval L (Prim2SF y)).
Proof.
  intros HL Hx Hy. rewrite leb_spec. unfold SFleb.
  rewrite (SFcompare_fval L _ _ HL (Prim2SF_valid x) (Prim2SF_valid y) Hx Hy).
  unfold Z.leb. destruct (fval L (Prim2SF x) ?= fval L (Prim2SF y)); reflexivity.
Qed.

Lemma leb_le L x y :
  L <= -1074 -> PrimFloat.leb x y = true -> fval L (Prim2SF x) <= fval L (Prim2SF y).
Proof.
  intros HL H. destruct (leb_not_nan x y H) as [Hx Hy].
  rewrite (leb_fval L x y HL Hx Hy) in H. now apply Z.leb_le.
Qed.

Lemma le_leb L x y :
  L <= -1074 ->
  is_nan_sf (Prim2SF x) = false -> is_nan_sf (Prim2SF y) = false ->
  fval L (Prim2SF x) <= fval L (Prim2SF y) -> PrimFloat.leb x y = true.
Proof.
  intros HL Hx Hy H. rewrite (leb_fval L x y HL Hx Hy). now apply Z.leb_le.
Qed.

(** A number between two finite numbers is finite. *)
Lemma between_finite lo c hi :
  is_finite_sf (Prim2SF lo) = true -> is_finite_sf (Prim2SF hi) = true ->
  PrimFloat.leb lo c = true -> PrimFloat.leb c hi = true ->
  is_finite_sf (Prim2SF c) = true.
Proof.
  rewrite !leb_spec. unfold SFleb.
  destruct (Prim2SF lo) as [sl|sl| |sl ml el], (Prim2SF c) as [sc|[|]| |sc mc ec],
    (Prim2SF hi) as [sh|sh| |sh mh eh]; cbn [SFcompare is_finite_sf];
    intros Hlo Hhi H1 H2; try discriminate; try reflexivity;
    destruct sl; discriminate.
Qed.

(** Multiplication by a non-negative factor is monotone. *)
Lemma mul_le_mono R c1 c2 :
  is_finite_sf (Prim2SF R) = true -> 0 <= fval (-1074) (Prim2SF R) ->
  is_finite_sf (Prim2SF c1) = true -> is_finite_sf (Prim2SF c2) = true ->
  PrimFloat.leb c1 c2 = true ->
  PrimFloat.leb (PrimFloat.mul R c1) (PrimFloat.mul R c2) = true.
Proof.
  intros FR HR F1 F2 Hle.
  assert (HL : -1074 <= -1074) by lia.
  pose proof (leb_le (-1074) c1 c2 HL Hle) as Hv.
  destruct (SFmul_value (-1074) (-1074) _ _ HL HL (Prim2SF_valid R) (Prim2SF_valid c1) FR F1)
    as [N1 V1].
  destruct (SFmul_value (-1074) (-1074) _ _ HL HL (Prim2SF_valid R) (Prim2SF_valid c2) FR F2)
    as [N2 V2].
  change (-1074 + -1074) with (-2148) in V1, V2.
  apply (le_leb (-2148)); try lia; rewrite !mul_spec; unfold SF64mul; try assumption.
  rewrite V1, V2. apply round_Z_mono; [lia|]. nia.
Qed.

(** Adding to a number that is not NaN is monotone. *)
Lemma add_le_mono x t1 t2 :
  is_nan_sf (Prim2SF x) = false ->
  is_finite_sf (Prim2SF t1) = true -> is_finite_sf (Prim2SF t2) = true ->
  PrimFloat.leb t1 t2 = true ->
  PrimFloat.leb (PrimFloat.add x t1) (PrimFloat.add x t2) = true.
Proof.
  intros Nx F1 F2 Hle.
  assert (HL : -1074 <= -1074) by lia.
  pose proof (leb_le (-1074) t1 t2 HL Hle) as Hv.
  destruct (is_finite_sf (Prim2SF x)) eqn:Fx.
  - destruct (SFadd_value (-1074) _ _ HL (Prim2SF_valid x) (Prim2SF_valid t1) Fx F1) as [N1 V1].
    destruct (SFadd_value (-1074) _ _ HL (Prim2SF_valid x) (Prim2SF_valid t2) Fx F2) as [N2 V2].
    apply (le_leb (-1074)); try lia; rewrite !add_spec; unfold SF64add; try assumption.
    rewrite V1, V2. apply round_Z_mono; lia.
  - rewrite leb_spec, !add_spec. unfold SF64add, SFleb.
    destruct (Prim2SF x) as [sx|sx| |sx mx ex]; try discriminate.
    destruct (Prim2SF t1) as [s1|s1| |s1 m1 e1]; try discriminate;
      destruct (Prim2SF t2) as [s2|s2| |s2 m2 e2]; try discriminate;
      cbn [SFadd SFcompare]; destruct sx; reflexivity.
Qed.

Lemma sub_add_opp x y : PrimFloat.sub x y = PrimFloat.add x (PrimFloat.opp y).
Proof.
  apply Prim2SF_inj. rewrite sub_spec, add_spec, opp_spec.
  unfold SF64sub, SF64add. apply SFsub_SFadd.
Qed.

Lemma leb_trans x y z :
  PrimFloat.leb x y = true -> PrimFloat.leb y z = true -> PrimFloat.leb x z = true.
Proof.
  intros H1 H2.
  destruct (leb_not_nan x y H1) as [Nx _]. destruct (leb_not_nan y z H2) as [_ Nz].
  assert (HL : -1074 <= -1074) by lia.
  pose proof (leb_le (-1074) x y HL H1). pose proof (leb_le (-1074) y z HL H2).
  apply (le_leb (-1074)); try assumption; lia.
Qed.

(** Halving a number that is not NaN does not give NaN. *)
Lemma div_two_not_nan w :
  PrimFloat.is_nan w = false -> is_nan_sf (Prim2SF (PrimFloat.div w 2%float)) = false.
Proof.
  rewrite is_nan_prim. intros Hw. rewrite div_spec. unfold SF64div.
  change (Prim2SF 2%float) with (S754_finite false 4503599627370496 (-51)).
  now apply SFdiv_finite_not_nan.
Qed.

(** The box around the centre: a coordinate [x + R * c] with [c] in [-1, 1]
    and [R <= Rmax] lies between [x - Rmax] and [x + Rmax]. *)
Lemma ring_coordinate_box x R Rmax c :
  is_nan_sf (Prim2SF x) = false ->
  is_finite_sf (Prim2SF R) = true -> 0 <= fval (-1074) (Prim2SF R) ->
  PrimFloat.mul R 1%float = R ->
  PrimFloat.mul R (PrimFloat.opp 1%float) = PrimFloat.opp R ->
  PrimFloat.leb R Rmax = true ->
  PrimFloat.leb (PrimFloat.opp Rmax) (PrimFloat.opp R) = true ->
  is_finite_sf (Prim2SF Rmax) = true ->
  is_finite_sf (Prim2SF (PrimFloat.opp Rmax)) = true ->
  is_finite_sf (Prim2SF (PrimFloat.opp R)) = true ->
  PrimFloat.leb (PrimFloat.opp 1%float) c = true -> PrimFloat.leb c 1%float = true ->
  PrimFloat.leb (PrimFloat.sub x Rmax) (PrimFloat.add x (PrimFloat.mul R c)) = true /\
  PrimFloat.leb (PrimFloat.add x (PrimFloat.mul R c)) (PrimFloat.add x Rmax) = true.
Proof.
  intros Nx FR HR E1 Em1 HRmax HRmin FRmax FRmin FRopp Hlo Hhi.
  assert (F1 : is_finite_sf (Prim2SF 1%float) = true) by reflexivity.
  assert (Fm1 : is_finite_sf (Prim2SF (PrimFloat.opp 1%float)) = true) by reflexivity.
  assert (Fc : is_finite_sf (Prim2SF c) = true)
    by (apply (between_finite (PrimFloat.opp 1%float) c 1%float); assumption).
  pose proof (mul_le_mono R c 1%float FR HR Fc F1 Hhi) as Hup. rewrite E1 in Hup.
  pose proof (mul_le_mono R (PrimFloat.opp 1%float) c FR HR Fm1 Fc Hlo) as Hdn.
  rewrite Em1 in Hdn.
  assert (Ft : is_finite_sf (Prim2SF (PrimFloat.mul R c)) = true)
    by (apply (between_finite (PrimFloat.opp R) _ R); assumption).
  split.
  - rewrite sub_add_opp. apply add_le_mono; try assumption.
    now apply (leb_trans _ (PrimFloat.opp R)).
  - apply add_le_mono; try assumption. now apply (leb_trans _ R).
Qed.

End Rounding.

(** A ring coordinate lies within the ring's radius of the centre, and so
    within the outer radius. *)
Lemma ring_box (inner wide : bool) (x c : float) :
  is_nan_sf (Prim2SF x) = false ->
  between (-1) c 1 = true ->
  between (x - (if wide then outerRadius else if inner then innerRadius else outerRadius))
          (x + (if inner then innerRadius else outerRadius) * c)
          (x + (if wide then outerRadius else if inner then innerRadius else outerRadius))
    = true.
Proof.
  intros Nx Hc. unfold between in *.
  apply andb_prop in Hc. destruct Hc as [Hlo Hhi].
  apply andb_true_intro.
  destruct inner, wide; apply ring_coordinate_box;
    first [exact Nx | exact Hlo | exact Hhi | reflexivity | (vm_compute; discriminate)].
Qed.

(** The strip of the source, position by position. *)
Lemma generateTriangleStrip_at w h q :
  (q < vertexCount (generateTriangleStrip w h))%nat ->
  vertexAt (generateTriangleStrip w h) q =
    [w / 2 + ringRadius q * cos (stripAngle q); h / 2 + ringRadius q * sin (stripAngle q); 0]
    ++ nth (stripColour q) palette [].
Proof.
  intros Hq.
  assert (Hcount : vertexCount (generateTriangleStrip w h) = 38%nat).
  { unfold vertexCount, generateTriangleStrip.
    rewrite triangleStripOf_length; [reflexivity | unfold numSegments; lia]. }
  rewrite Hcount in Hq.
  unfold ringRadius, stripAngle, stripColour.
  destruct (Nat.even q) eqn:E.
  - apply Nat.even_spec in E. destruct E as [k ->].
    replace (2 * k / 2)%nat with k by (apply Nat.div_unique with 0%nat; lia).
    assert (Hk : (k <= numSegments)%nat) by (unfold numSegments; lia).
    exact (proj1 (@generateTriangleStrip_vertex w h k Hk)).
  - assert (O : Nat.odd q = true) by (rewrite <- Nat.negb_even, E; reflexivity).
    apply Nat.odd_spec in O. destruct O as [k ->].
    replace ((2 * k + 1) / 2)%nat with k by (apply Nat.div_unique with 1%nat; lia).
    assert (Hk : (k <= numSegments)%nat) by (unfold numSegments; lia).
    exact (proj2 (@generateTriangleStrip_vertex w h k Hk)).
Qed.

(** C9 (as the code has it): the strip stays in the square of half-side
    [outerRadius] around the centre of the frame, provided that the frame has
    a size.  For every width and height that are not NaN, every vertex of the
    strip whose angle the engine's [Math.cos] and [Math.sin] map into
    [-1, 1] satisfies [width/2 - outerRadius <= x <= width/2 + outerRadius]
    and [height/2 - outerRadius <= y <= height/2 + outerRadius], all four
    comparisons and the bounds being those of binary64.  Infinite sizes are
    included.  For a width that is NaN the centre is NaN and the bound
    fails. *)
Theorem C9_strip_positions_in_box (w h : float) (q : nat) :
  PrimFloat.is_nan w = false -> PrimFloat.is_nan h = false ->
  (q < vertexCount (generateTriangleStrip w h))%nat ->
  between (-1) (cos (stripAngle q)) 1 = true ->
  between (-1) (sin (stripAngle q)) 1 = true ->
  inBox w h outerRadius (vertexAt (generateTriangleStrip w h) q) = true.
Proof.
  intros Hw Hh Hq Hcos Hsin.
  rewrite (@generateTriangleStrip_at w h q Hq).
  unfold inBox, vertexX, vertexY, ringRadius. cbn [app nth].
  apply andb_true_intro. split.
  - exact (@ring_box (Nat.even q) true (w / 2) _ (div_two_not_nan w Hw) Hcos).
  - exact (@ring_box (Nat.even q) true (h / 2) _ (div_two_not_nan h Hh) Hsin).
Qed.

(** C10 (as the code has it): the strip alternates between the two rings.
    The vertex at position [q] is computed as the centre plus
    [ringRadius q] times the engine's cosine and sine of the angle of step
    [q / 2], where [ringRadius q] is [innerRadius] (40) at the even positions
    and [outerRadius] (80) at the odd ones.  The distance to the centre that
    results is 40 or 80 only up to the rounding of binary64 and the accuracy
    of the engine; what holds exactly is the bound on each axis: for a width and a height that are not NaN and an angle that
    the engine's cosine and sine map into [-1, 1], the vertex is within
    [ringRadius q] of the centre on both axes. *)
Theorem C10_strip_alternates_rings (w h : float) (q : nat) :
  (q < vertexCount (generateTriangleStrip w h))%nat ->
  ringRadius q = (if Nat.even q then 40 else 80) /\
  position (vertexAt (generateTriangleStrip w h) q) =
    [w / 2 + ringRadius q * cos (stripAngle q);
     h / 2 + ringRadius q * sin (stripAngle q); 0] /\
  (PrimFloat.is_nan w = false -> PrimFloat.is_nan h = false ->
   between (-1) (cos (stripAngle q)) 1 = true ->
   between (-1) (sin (stripAngle q)) 1 = true ->
   inBox w h (ringRadius q) (vertexAt (generateTriangleStrip w h) q) = true).
Proof.
  intros Hq. rewrite (@generateTriangleStrip_at w h q Hq).
  split; [reflexivity|]. split; [reflexivity|].
  intros Hw Hh Hcos Hsin.
  unfold inBox, vertexX, vertexY, ringRadius. cbn [app nth].
  apply andb_true_intro. split.
  - exact (@ring_box (Nat.even q) false (w / 2) _ (div_two_not_nan w Hw) Hcos).
  - exact (@ring_box (Nat.even q) false (h / 2) _ (div_two_not_nan h Hh) Hsin).
Qed.

End ModelManager.

(** ** The generators at work: concrete instances *)

(** C1, as the spec states it, fails: the strip for a 200 by 200 frame does not
    hold [numSegments + 2 = 20] vertices (120 numbers); it holds 38. *)
Lemma C1_counterexample :
  vertexCount (generateTriangleStrip Reference.cos Reference.sin 200 200)
    <> (numSegments + 2)%nat /\
  List.length (generateTriangleStrip Reference.cos Reference.sin 200 200) <> 120%nat.
Proof. split; vm_compute; discriminate. Qed.

(** C4, as the spec states it, fails: the first vertex of the strip for a 200
    by 200 frame is not at (240, 100, 0). *)
Lemma C4_counterexample :
  position (vertexAt (generateTriangleStrip Reference.cos Reference.sin 200 200) 0)
    <> [240; 100; 0].
Proof.
  intros H.
  apply (f_equal (fun l => match l with x :: _ => (x =? 240) | [] => false end)) in H.
  vm_compute in H. discriminate H.
Qed.

Lemma C4_witness :
  Reference.cos 0 = 1 /\ Reference.sin 0 = 0 /\
  position (vertexAt (generateTriangleStrip Reference.cos Reference.sin 200 200) 0)
    = [140; 100; 0].
Proof.
  split; [reflexivity|]. split; [reflexivity|].
  apply (@C4_strip_first_vertices Reference.cos Reference.sin); reflexivity.
Defined.

Lemma C5_witness :
  vertexAt (im_vertices (trianglesIndexOf Color.bilinear 10 5)) (3 * (5 + 1) + 2) =
    gridVertex Color.bilinear 10 5 3 2 /\
  firstn 6 (skipn (6 * (3 * 5 + 2)) (im_indices (trianglesIndexOf Color.bilinear 10 5))) =
    ([20; 21; 26] ++ [21; 27; 26])%nat.
Proof.
  split.
  - apply (proj1 (C5_grid_addressing Color.bilinear 10 5 3 2)); lia.
  - apply (proj1 (proj2 (C5_grid_addressing Color.bilinear 10 5 3 2))); lia.
Defined.

Lemma C6_witness :
  (3 <= 5)%nat /\
  vertexAt (triangleFanOf Reference.cos Reference.sin 5 200) (3 + 1) =
    [10 + 150 * Reference.cos (- (3 / 5) * PI / 2);
     (200 - 10) + 150 * Reference.sin (- (3 / 5) * PI / 2); 0] ++ [0; 255; 0].
Proof.
  split; [lia|].
  apply (@C6_fan_layout Reference.cos Reference.sin Reference.Frame
           Reference.frameHeight Reference.fillTriangleFan 5 200 3).
  lia.
Defined.

Lemma C7_witness :
  getModel Reference.cos Reference.sin "teapot" 200 200 = [] /\
  forall frame : Canvas Reference.Frame,
    drawModel Reference.cos Reference.sin Color.bilinear
      Reference.frameWidth Reference.frameHeight
      Reference.fillTriangleStrip Reference.fillTriangleFan
      Reference.fillTrianglesIndex Reference.fillTriangles
      "teapot" frame true (Color.mk 0 0 0) = frame.
Proof.
  pose proof (@C7_unknown_model Reference.cos Reference.sin Color.bilinear
    Reference.Frame Reference.frameWidth Reference.frameHeight
    Reference.fillTriangleStrip Reference.fillTriangleFan
    Reference.fillTrianglesIndex Reference.fillTriangles "teapot"%string) as [Hget Hdraw].
  split.
  - apply Hget. discriminate.
  - intros frame. apply Hdraw.
    rewrite getModels_registered. simpl. intuition discriminate.
Defined.

(** C8, as the spec states it, fails: the flattened mesh of the source holds 6
    vertices for 2 triangles, not 12. *)
Lemma C8_counterexample :
  vertexCount (fm_vertices (trianglesOf Color.bilinear 1 1))
    <> (6 * fm_numTriangles (trianglesOf Color.bilinear 1 1))%nat.
Proof. vm_compute. discriminate. Qed.

Lemma C2_witness :
  (1 < fm_numTriangles (trianglesOf Color.bilinear 1 1))%nat /\
  Permutation
    (flatTriangle (fm_vertices (trianglesOf Color.bilinear 1 1)) 1)
    (map (map Some)
       (indexedTriangle (im_vertices (trianglesIndexOf Color.bilinear 1 1))
          (im_indices (trianglesIndexOf Color.bilinear 1 1)) 1)).
Proof.
  assert (Hk : (1 < fm_numTriangles (trianglesOf Color.bilinear 1 1))%nat)
    by (rewrite trianglesOf_numTriangles; lia).
  split; [exact Hk|].
  apply (@C2_flattened_matches_indexed Color.bilinear 1 Hk).
Defined.

(** ** The further properties at work *)

Lemma X1_witness :
  (7 <= numSegments)%nat /\
  vertexAt (generateTriangleStrip Reference.cos Reference.sin 200 200) (2 * 7) =
    [200 / 2 + 40 * Reference.cos (of_nat 7 * (2 * PI / of_nat numSegments));
     200 / 2 + 40 * Reference.sin (of_nat 7 * (2 * PI / of_nat numSegments)); 0] ++
    [0; 255; 0].
Proof.
  assert (Hk : (7 <= numSegments)%nat) by (unfold numSegments; lia).
  split; [exact Hk|].
  apply (proj1 (@X1_strip_layout Reference.cos Reference.sin 200 200 7 Hk)).
Defined.

Lemma X2_witness :
  (5 < 2 * numSegments)%nat /\
  NoDup
    [vertexColour (vertexAt (generateTriangleStrip Reference.cos Reference.sin 200 200) 5);
     vertexColour (vertexAt (generateTriangleStrip Reference.cos Reference.sin 200 200) (5 + 1));
     vertexColour (vertexAt (generateTriangleStrip Reference.cos Reference.sin 200 200) (5 + 2))].
Proof.
  assert (Ht : (5 < 2 * numSegments)%nat) by (unfold numSegments; lia).
  split; [exact Ht|].
  apply (proj2 (@X2_strip_triangles_three_colours Reference.cos Reference.sin 200 200 5 Ht)).
Defined.

Lemma X7_witness :
  pushVertex [1; 2; 3; 4; 5; 6] 0 [] = map Some [1; 2; 3; 4; 5; 6] /\
  pushVertex [1; 2; 3; 4; 5; 6] 1 [Some 7] = [Some 7; None; None; None; None; None; None].
Proof.
  split.
  - apply (proj1 (proj2 (proj2 (X7_pushVertex_slots [1; 2; 3; 4; 5; 6] 0 [])))).
    simpl. lia.
  - apply (proj2 (proj2 (proj2 (X7_pushVertex_slots [1; 2; 3; 4; 5; 6] 1 [Some 7])))).
    simpl. lia.
Defined.

Lemma X9_witness :
  (37 < im_numTriangles (trianglesIndexOf Color.bilinear 10 5))%nat /\
  NoDup (firstn 3 (skipn (3 * 37) (im_indices (trianglesIndexOf Color.bilinear 10 5)))).
Proof.
  assert (Ht : (37 < im_numTriangles (trianglesIndexOf Color.bilinear 10 5))%nat)
    by (rewrite trianglesIndexOf_flat; simpl; lia).
  split; [exact Ht|].
  apply (proj2 (@X9_indexed_triangles_distinct Color.bilinear 10 5 37 Ht)).
Defined.

Lemma X10_witness :
  (65 < vertexCount (im_vertices (trianglesIndexOf Color.bilinear 10 5)))%nat /\
  In 65%nat (im_indices (trianglesIndexOf Color.bilinear 10 5)).
Proof.
  assert (Hv : (65 < vertexCount (im_vertices (trianglesIndexOf Color.bilinear 10 5)))%nat).
  { unfold vertexCount. rewrite trianglesIndexOf_vertices_length. simpl. lia. }
  split; [exact Hv|].
  apply (@X10_indexed_mesh_uses_every_vertex Color.bilinear 10 5 65); [lia|lia|exact Hv].
Defined.

Lemma X11_witness :
  position (vertexAt (im_vertices (trianglesIndexOf Color.bilinear 10 5)) (10 * 6 + 5)) =
    [190; 110; 0].
Proof.
  apply (@X11_indexed_mesh_positions Color.bilinear 10 5); lia.
Defined.

Lemma X12_witness :
  (4 < 5)%nat /\
  NoDup
    [vertexColour (vertexAt (triangleFanOf Reference.cos Reference.sin 5 200) 0);
     vertexColour (vertexAt (triangleFanOf Reference.cos Reference.sin 5 200) (4 + 1));
     vertexColour (vertexAt (triangleFanOf Reference.cos Reference.sin 5 200) (4 + 2))].
Proof.
  assert (Hi : (4 < 5)%nat) by lia.
  split; [exact Hi|].
  apply (proj2 (proj2 (@X12_fan_triangles_three_colours Reference.cos Reference.sin
                          5 200 4 Hi))).
Defined.

Lemma X13_witness :
  (3 <= numSegments)%nat /\
  vertexAt (generateTriangleStrip Reference.cos Reference.sin nan 200) (2 * 3) =
    [nan; 200 / 2 + 40 * Reference.sin (of_nat 3 * (2 * PI / of_nat numSegments)); 0] ++
    [255; 0; 0].
Proof.
  assert (Hk : (3 <= numSegments)%nat) by (unfold numSegments; lia).
  split; [exact Hk|].
  apply (proj1 (proj2 (@X13_strip_nan_width Reference.cos Reference.sin 200 3 Hk))).
Defined.

Lemma X14_witness :
  Reference.cos (-0) = 1 /\ Reference.sin (-0) = (-0) /\
  position (vertexAt (triangleFanOf Reference.cos Reference.sin 5 200) 1) = [160; 190; 0].
Proof.
  assert (Hcos : Reference.cos (-0) = 1) by reflexivity.
  assert (Hsin : Reference.sin (-0) = (-0)) by reflexivity.
  split; [exact Hcos|]. split; [exact Hsin|].
  apply (proj2 (@X14_fan_first_rim_vertex Reference.cos Reference.sin 200 Hcos Hsin)).
Defined.

(** C9, as the spec states it ("for every width and height"), fails: for a
    width that is NaN the centre [width / 2] is NaN, so is the x coordinate of
    the first vertex and so are both bounds, and no comparison with NaN
    holds. *)
Lemma C9_counterexample :
  vertexX (vertexAt (generateTriangleStrip Reference.cos Reference.sin nan 200) 0) = nan /\
  (nan / 2 - outerRadius
     <=? vertexX (vertexAt (generateTriangleStrip Reference.cos Reference.sin nan 200) 0))
    = false /\
  inBox nan 200 outerRadius
    (vertexAt (generateTriangleStrip Reference.cos Reference.sin nan 200) 0) = false.
Proof. split; [|split]; vm_compute; reflexivity. Qed.

Lemma C9_witness :
  PrimFloat.is_nan 200 = false /\
  (2 < vertexCount (generateTriangleStrip Reference.cos Reference.sin 200 200))%nat /\
  between (-1) (Reference.cos (stripAngle 2)) 1 = true /\
  between (-1) (Reference.sin (stripAngle 2)) 1 = true /\
  inBox 200 200 outerRadius
    (vertexAt (generateTriangleStrip Reference.cos Reference.sin 200 200) 2) = true.
Proof.
  assert (Hn : PrimFloat.is_nan 200 = false) by reflexivity.
  assert (Hq : (2 < vertexCount (generateTriangleStrip Reference.cos Reference.sin 200 200))%nat)
    by (vm_compute; lia).
  assert (Hcos : between (-1) (Reference.cos (stripAngle 2)) 1 = true) by reflexivity.
  assert (Hsin : between (-1) (Reference.sin (stripAngle 2)) 1 = true) by reflexivity.
  split; [exact Hn|]. split; [exact Hq|]. split; [exact Hcos|]. split; [exact Hsin|].
  apply (@C9_strip_positions_in_box Reference.cos Reference.sin 200 200 2 Hn Hn Hq Hcos Hsin).
Defined.

(** C10, as the spec states it ("exactly at distance"), fails.  For a width
    that is NaN the distance of the first vertex from the centre is NaN.  For
    the 200 by 200 frame the vertex at position 2 is an inner ring point at
    the angle [2 * PI / 18]; the cosine and the sine used here are the
    correctly rounded ones (0.9396926207859084 and 0.3420201433256687), the
    vertex is (137.58770483143633, 113.68080573302674) and its distance from
    the centre (100, 100) is 39.999999999999986, not 40. *)
Lemma C10_counterexample :
  (distance (nan / 2) (200 / 2)
     (vertexAt (generateTriangleStrip Reference.cos Reference.sin nan 200) 0)
     =? innerRadius) = false /\
  Reference.cos (stripAngle 2) = 0x1.e11f642522d1cp-1 /\
  Reference.sin (stripAngle 2) = 0x1.5e3a8748a0bf5p-2 /\
  position (vertexAt (generateTriangleStrip Reference.cos Reference.sin 200 200) 2) =
    [0x1.132ce7a5cd70cp+7; 0x1.c6b92523591dep+6; 0] /\
  distance (200 / 2) (200 / 2)
    (vertexAt (generateTriangleStrip Reference.cos Reference.sin 200 200) 2)
    = 0x1.3fffffffffffep+5 /\
  (distance (200 / 2) (200 / 2)
     (vertexAt (generateTriangleStrip Reference.cos Reference.sin 200 200) 2)
     =? innerRadius) = false.
Proof. repeat (split; [vm_compute; reflexivity|]). vm_compute. reflexivity. Qed.

Lemma C10_witness :
  (2 < vertexCount (generateTriangleStrip Reference.cos Reference.sin 200 200))%nat /\
  position (vertexAt (generateTriangleStrip Reference.cos Reference.sin 200 200) 2) =
    [200 / 2 + 40 * Reference.cos (stripAngle 2);
     200 / 2 + 40 * Reference.sin (stripAngle 2); 0] /\
  inBox 200 200 innerRadius
    (vertexAt (generateTriangleStrip Reference.cos Reference.sin 200 200) 2) = true.
Proof.
  assert (Hq : (2 < vertexCount (generateTriangleStrip Reference.cos Reference.sin 200 200))%nat)
    by (vm_compute; lia).
  destruct (@C10_strip_alternates_rings Reference.cos Reference.sin 200 200 2 Hq)
    as (_ & Hpos & Hbox).
  split; [exact Hq|]. split; [exact Hpos|].
  apply Hbox; reflexivity.
Defined.
